(** * http-proxy-listener: worker registry, round-robin cursor and gateway

    A shallow embedding of [http-proxy-listener.js]: the [WorkerPool] class
    (registry [Map], sorted key array, round-robin index), the timestamp
    normalisation, and the HTTP / upgrade handlers of the proxy server.

    JavaScript values are embedded as the inductive [JsVal]; the insertion
    ordered [Map] of the pool is an association list, because the iteration
    order of the map is what the stable [Array.prototype.sort] sees. *)

From Stdlib Require Import ZArith List String Bool Lia.
From Stdlib Require Import Sorted Permutation DecimalString.
Import ListNotations.

Local Open Scope string_scope.
Local Open Scope list_scope.
Local Open Scope Z_scope.

(* ================================================================== *)
(** ** JavaScript values *)

(** A JS number: a finite value, or one of the three non-finite doubles.
    Finite numbers are taken to be integers (epoch milliseconds); the
    code only stores, subtracts and compares them. *)
Inductive Num : Type :=
| Finite (z : Z)
| NaN
| PosInf
| NegInf.

#[local] Set Warnings "-register-all".

(** A JS value.  Objects carry a reference [ref]: [===] on two objects
    compares identities, not contents. *)
Inductive JsVal : Type :=
| JUndefined
| JNull
| JBool (b : bool)
| JNum (n : Num)
| JStr (s : string)
| JObj (ref : nat) (props : list (string * JsVal)).

(** [Number.isFinite] on a number. *)
Definition Number_isFinite (n : Num) : bool :=
  match n with Finite _ => true | _ => false end.

(** ToBoolean: [undefined], [null], [false], [0], [NaN] and the empty string
    are falsy, everything else is truthy. *)
Definition truthy (v : JsVal) : bool :=
  match v with
  | JUndefined | JNull => false
  | JBool b => b
  | JNum (Finite z) => negb (z =? 0)
  | JNum NaN => false
  | JNum _ => true
  | JStr s => negb (s =? "")%string
  | JObj _ _ => true
  end.

(** [a || b] *)
Definition js_or (a b : JsVal) : JsVal := if truthy a then a else b.

(** Strict equality [a === b]. *)
Definition num_eq (a b : Num) : bool :=
  match a, b with
  | Finite x, Finite y => x =? y
  | PosInf, PosInf => true
  | NegInf, NegInf => true
  | _, _ => false
  end.

Definition strict_eq (a b : JsVal) : bool :=
  match a, b with
  | JUndefined, JUndefined => true
  | JNull, JNull => true
  | JBool x, JBool y => Bool.eqb x y
  | JNum x, JNum y => num_eq x y
  | JStr x, JStr y => (x =? y)%string
  | JObj r _, JObj r' _ => Nat.eqb r r'
  | _, _ => false
  end.

(** [a !== b] *)
Definition strict_neq (a b : JsVal) : bool := negb (strict_eq a b).

(** [typeof v === "object"] (true of [null] as well). *)
Definition typeof_object (v : JsVal) : bool :=
  match v with JNull | JObj _ _ => true | _ => false end.

(* ================================================================== *)
(** ** Insertion-ordered string-keyed tables

    Both a JS object's own properties and a [Map] keep their keys in
    insertion order; writing an existing key keeps its position. *)

Section Assoc.
Context {V : Type}.

Fixpoint assoc_get (k : string) (m : list (string * V)) : option V :=
  match m with
  | [] => None
  | (k', v) :: r => if (k =? k')%string then Some v else assoc_get k r
  end.

Definition assoc_has (k : string) (m : list (string * V)) : bool :=
  match assoc_get k m with Some _ => true | None => false end.

Fixpoint assoc_set (k : string) (v : V) (m : list (string * V))
  : list (string * V) :=
  match m with
  | [] => [(k, v)]
  | (k', v') :: r =>
      if (k =? k')%string then (k', v) :: r else (k', v') :: assoc_set k v r
  end.

Fixpoint assoc_delete (k : string) (m : list (string * V))
  : list (string * V) :=
  match m with
  | [] => []
  | (k', v') :: r =>
      if (k =? k')%string then r else (k', v') :: assoc_delete k r
  end.

Definition assoc_keys (m : list (string * V)) : list string := map fst m.
Definition assoc_values (m : list (string * V)) : list V := map snd m.
End Assoc.

(** Property read [v.k] for the property names the proxy reads ([url],
    [upload_at], [version], [runner_by], [.sv]): none of them exists on a
    primitive or on [Object.prototype], so only own properties answer. *)
Definition get (v : JsVal) (k : string) : JsVal :=
  match v with
  | JObj _ props =>
      match assoc_get k props with Some x => x | None => JUndefined end
  | _ => JUndefined
  end.

(** The own enumerable properties of a string: one per character, keyed
    by its index written in decimal, [["0", s[0]], ["1", s[1]], ..]. *)
Fixpoint index_entries (i : nat) (s : string) : list (string * JsVal) :=
  match s with
  | EmptyString => []
  | String c r =>
      (NilEmpty.string_of_uint (Nat.to_uint i), JStr (String c EmptyString))
      :: index_entries (S i) r
  end.

(** [Object.entries(o)]: the properties of an object, the indexed
    characters of a string, nothing for a number or a boolean.  (It is
    only applied to [obj || {}], never to [null] or [undefined], for
    which the model has no entries either, as [{ ...null }] has.) *)
Definition Object_entries (o : JsVal) : list (string * JsVal) :=
  match o with
  | JObj _ props => props
  | JStr s => index_entries 0 s
  | _ => []
  end.

Definition Object_keys (o : JsVal) : list string := map fst (Object_entries o).

(** [new Set(keys).has(k)] *)
Definition Set_has (k : string) (keys : list string) : bool :=
  existsb (String.eqb k) keys.

(** [arr[i]]: [None] stands for [undefined] outside the array. *)
Definition arr_get {A : Type} (l : list A) (i : Z) : option A :=
  if i <? 0 then None else nth_error l (Z.to_nat i).

(** [arr.indexOf(k)], [-1] when absent. *)
Fixpoint indexOf (k : string) (l : list string) : Z :=
  match l with
  | [] => -1
  | x :: r =>
      if (x =? k)%string then 0
      else let i := indexOf k r in if i <? 0 then -1 else i + 1
  end.

(** [arr.length] *)
Definition len {A : Type} (l : list A) : Z := Z.of_nat (List.length l).

(* ================================================================== *)
(** ** Worker records and the pool *)

(** A stored worker record: [{ key, url, upload_at, version, runner_by }].
    [upload_at] is always the result of [normalizeUploadAt], a finite
    number; the other fields hold whatever truthy value came in. *)
Record Worker : Type := mkWorker {
  key : string;
  url : JsVal;
  upload_at : Z;
  version : JsVal;
  runner_by : JsVal
}.

(** The result of [_toComparable] / an entry of [_snapshotComparableMap]. *)
Record Comparable : Type := mkComparable {
  c_url : JsVal;
  c_upload_at : Z;
  c_version : JsVal;
  c_runner_by : JsVal
}.

(** [class WorkerPool]: [workers] is the [Map] (key to record, insertion
    ordered), [sortedKeys] the array of keys, [currentIndex] the cursor. *)
Record WorkerPool : Type := mkPool {
  workers : list (string * Worker);
  sortedKeys : list string;
  currentIndex : Z;
  _firstSyncLogged : bool
}.

(** [new WorkerPool()] *)
Definition new_WorkerPool : WorkerPool :=
  {| workers := []; sortedKeys := []; currentIndex := 0;
     _firstSyncLogged := false |}.

(** Field assignments [this.workers = ..], [this.sortedKeys = ..],
    [this.currentIndex = ..]. *)
Definition set_workers (m : list (string * Worker)) (p : WorkerPool) :=
  {| workers := m; sortedKeys := sortedKeys p;
     currentIndex := currentIndex p;
     _firstSyncLogged := _firstSyncLogged p |}.

Definition set_sortedKeys (ks : list string) (p : WorkerPool) :=
  {| workers := workers p; sortedKeys := ks;
     currentIndex := currentIndex p;
     _firstSyncLogged := _firstSyncLogged p |}.

Definition set_currentIndex (i : Z) (p : WorkerPool) :=
  {| workers := workers p; sortedKeys := sortedKeys p;
     currentIndex := i;
     _firstSyncLogged := _firstSyncLogged p |}.

(** The three key lists a sync computes and logs. *)
Record Diff : Type := mkDiff {
  added : list string;
  removed : list string;
  updated : list string
}.

(** [added.length || removed.length || updated.length] is falsy. *)
Definition no_diff (d : Diff) : Prop :=
  added d = [] /\ removed d = [] /\ updated d = [].

(** [.sort((a, b) => a.upload_at - b.upload_at)].  The comparator is
    positive exactly when [a] is strictly later, and the sort is stable:
    records with equal [upload_at] keep their relative order.  A stable
    sort has exactly one result, written here as an insertion sort that
    puts the records in from the last to the first, each one in front of
    the first record that is not strictly earlier. *)
Fixpoint insert_by_upload_at (w : Worker) (l : list Worker) : list Worker :=
  match l with
  | [] => [w]
  | x :: r =>
      if upload_at w - upload_at x <=? 0
      then w :: x :: r
      else x :: insert_by_upload_at w r
  end.

Definition sort_by_upload_at (l : list Worker) : list Worker :=
  fold_right insert_by_upload_at [] l.

(** [getAllWorkers()] *)
Definition getAllWorkers (p : WorkerPool) : list Worker :=
  sort_by_upload_at (assoc_values (workers p)).

(** [size()] *)
Definition size (p : WorkerPool) : Z := len (workers p).

(** [_resort()] *)
Definition _resort (p : WorkerPool) : WorkerPool :=
  let currentKey := arr_get (sortedKeys p) (currentIndex p) in
  let p1 :=
    set_sortedKeys
      (map key (sort_by_upload_at (assoc_values (workers p)))) p in
  if len (sortedKeys p1) =? 0 then set_currentIndex 0 p1
  else
    let no_key :=
      if len (sortedKeys p1) <=? currentIndex p1
      then set_currentIndex 0 p1 else p1 in
    match currentKey with
    | Some k =>
        if truthy (JStr k) then
          let idx := indexOf k (sortedKeys p1) in
          set_currentIndex (if 0 <=? idx then idx else 0) p1
        else no_key
    | None => no_key
    end.

(** [getNextWorker()]; [None] is [null].  [workers.get(undefined)] is
    [undefined], and a record is an object, hence truthy, so
    [worker || null] is the lookup's own result. *)
Definition getNextWorker (p : WorkerPool) : option Worker * WorkerPool :=
  if len (sortedKeys p) =? 0 then (None, p)
  else
    let worker :=
      match arr_get (sortedKeys p) (currentIndex p) with
      | Some k => assoc_get k (workers p)
      | None => None
      end in
    (worker,
     set_currentIndex (Z.rem (currentIndex p + 1) (len (sortedKeys p))) p).

(** [removeWorker(key, resort)]; the [log] flag only prints. *)
Definition removeWorker (k : string) (resort : bool) (p : WorkerPool)
  : bool * WorkerPool :=
  if assoc_has k (workers p) then
    let p1 := set_workers (assoc_delete k (workers p)) p in
    (true, if resort then _resort p1 else p1)
  else (false, p).

(** [{ ...raw, upload_at, version, runner_by }]: the own properties of
    [raw] with three of them overwritten.  It is built only for an entry
    with a url, hence for an object [raw]; the fresh object is only read
    from, its identity is never compared. *)
Definition spread_with (raw : JsVal) (c : Comparable) : JsVal :=
  JObj 0
    (assoc_set "runner_by" (c_runner_by c)
       (assoc_set "version" (c_version c)
          (assoc_set "upload_at" (JNum (Finite (c_upload_at c)))
             (Object_entries raw)))).

(** What [updateWorker] returns after the write: [true] when there was no
    previous record ([!prev]), else whether a field differs ([!==]). *)
Definition record_changed (prev : option Worker) (next : Worker) : bool :=
  match prev with
  | None => true
  | Some pv =>
      strict_neq (url pv) (url next)
      || negb (upload_at pv =? upload_at next)
      || strict_neq (version pv) (version next)
      || strict_neq (runner_by pv) (runner_by next)
  end.

Section Pool.

(** [Date.parse]: [NaN] for text that is not a date, else the epoch. *)
Variable Date_parse : string -> Num.

(** [normalizeUploadAt(v)], with [now] the value [Date.now()] returns
    when it is read. *)
Definition normalizeUploadAt (now : Z) (v : JsVal) : Z :=
  match v with
  | JNum (Finite z) => z
  | JStr s =>
      match Date_parse s with
      | Finite t => t
      | _ => now
      end
  | _ =>
      if truthy v && typeof_object v
         && strict_eq (get v ".sv") (JStr "timestamp")
      then now
      else now
  end.

(** [_toComparable(data)]; [None] is the [null] it returns for falsy
    data. *)
Definition _toComparable (now : Z) (data : JsVal) : option Comparable :=
  if negb (truthy data) then None
  else Some {| c_url := js_or (get data "url") (JStr "");
               c_upload_at := normalizeUploadAt now (get data "upload_at");
               c_version := js_or (get data "version") (JStr "unknown");
               c_runner_by := js_or (get data "runner_by") (JStr "unknown") |}.

(** [_snapshotComparableMap()]; [w.upload_at || 0] is [w.upload_at]. *)
Definition _snapshotComparableMap (p : WorkerPool)
  : list (string * Comparable) :=
  map (fun kw : string * Worker =>
         let w := snd kw in
         (fst kw,
          {| c_url := js_or (url w) (JStr "");
             c_upload_at := upload_at w;
             c_version := js_or (version w) (JStr "unknown");
             c_runner_by := js_or (runner_by w) (JStr "unknown") |}))
      (workers p).

(** [updateWorker(key, data, resort)]; the [log] flag only prints.  The
    boolean is the method's result. *)
Definition updateWorker (now : Z) (k : string) (data : JsVal)
           (resort : bool) (p : WorkerPool) : bool * WorkerPool :=
  if negb (truthy data) || negb (truthy (get data "url")) then (false, p)
  else
    let uploadAt := normalizeUploadAt now (get data "upload_at") in
    let prev := assoc_get k (workers p) in
    let next := {| key := k;
                   url := get data "url";
                   upload_at := uploadAt;
                   version := js_or (get data "version") (JStr "unknown");
                   runner_by :=
                     js_or (get data "runner_by") (JStr "unknown") |} in
    let p1 := set_workers (assoc_set k next (workers p)) p in
    let p2 := if resort then _resort p1 else p1 in
    (record_changed prev next, p2).

(** The first loop of [syncFromObject]: every key of the map that the
    snapshot does not have is deleted and pushed on [removed]. *)
Definition remove_step (nextKeys : list string)
           (acc : list string * WorkerPool) (k : string)
  : list string * WorkerPool :=
  if negb (Set_has k nextKeys) then
    let (ok, q) := removeWorker k false (snd acc) in
    (if ok then fst acc ++ [k] else fst acc, q)
  else acc.

Definition remove_missing (nextKeys : list string) (p : WorkerPool)
  : list string * WorkerPool :=
  fold_left (remove_step nextKeys) (assoc_keys (workers p)) ([], p).

(** The second loop: every entry with a truthy url is written into the
    map.  [clock k] is what [Date.now()] returns while the entry of key
    [k] is handled (it is read at most once per entry). *)
Definition upsert_step (clock : string -> Z)
           (before : list (string * Comparable))
           (acc : list string * list string * WorkerPool)
           (e : string * JsVal)
  : list string * list string * WorkerPool :=
  let '(added, updated, q) := acc in
  let (k, raw) := e in
  match _toComparable (clock k) raw with
  | None => acc
  | Some nextComp =>
      if negb (truthy (c_url nextComp)) then acc
      else
        let existed := assoc_has k before in
        let (changed, q') :=
          updateWorker (clock k) k (spread_with raw nextComp) false q in
        if negb existed then (added ++ [k], updated, q')
        else if changed then (added, updated ++ [k], q')
        else (added, updated, q')
  end.

Definition upsert_all (clock : string -> Z)
           (before : list (string * Comparable))
           (entries : list (string * JsVal)) (p : WorkerPool)
  : list string * list string * WorkerPool :=
  fold_left (upsert_step clock before) entries ([], [], p).

(** [syncFromObject(obj)].  The method returns nothing: the diff lists
    are what it logs.  After the call [_firstSyncLogged] is set. *)
Definition syncFromObject (clock : string -> Z) (obj : JsVal)
           (p : WorkerPool) : Diff * WorkerPool :=
  let before := _snapshotComparableMap p in
  let incoming := js_or obj (JObj 0 []) in
  let nextKeys := Object_keys incoming in
  let (removed, p1) := remove_missing nextKeys p in
  let '(added, updated, p2) :=
    upsert_all clock before (Object_entries incoming) p1 in
  let p3 := _resort p2 in
  ({| added := added; removed := removed; updated := updated |},
   {| workers := workers p3; sortedKeys := sortedKeys p3;
      currentIndex := currentIndex p3; _firstSyncLogged := true |}).

(** The pool a sync hands to its final [_resort]. *)
Definition before_resort (clock : string -> Z) (obj : JsVal)
           (p : WorkerPool) : WorkerPool :=
  snd (upsert_all clock (_snapshotComparableMap p)
         (Object_entries (js_or obj (JObj 0 [])))
         (snd (remove_missing (Object_keys (js_or obj (JObj 0 []))) p))).

(** The record a sync stores for the entry [raw] under key [k]. *)
Definition normalized_record (now : Z) (k : string) (raw : JsVal) : Worker :=
  {| key := k;
     url := get raw "url";
     upload_at := normalizeUploadAt now (get raw "upload_at");
     version := js_or (get raw "version") (JStr "unknown");
     runner_by := js_or (get raw "runner_by") (JStr "unknown") |}.

(** The states the pool goes through: [workerPool] is only touched by
    the feed callback ([syncFromObject]) and by the two handlers
    ([getNextWorker]). *)
Inductive reachable : WorkerPool -> Prop :=
| reach_new : reachable new_WorkerPool
| reach_sync : forall clock obj p,
    reachable p -> reachable (snd (syncFromObject clock obj p))
| reach_next : forall p,
    reachable p -> reachable (snd (getNextWorker p)).

End Pool.

(* ================================================================== *)
(** ** The HTTP server: health surface, dispatch, upgrade *)

(** What a handler reads of the inbound request: [req.url], [req.method]
    and the [x-request-id] header ([None] when the header is absent). *)
Record Request : Type := mkRequest {
  req_url : string;
  req_method : string;
  x_request_id : option string
}.

(** One element of the [workers] array of the health body. *)
Record HealthEntry : Type := mkHealthEntry {
  h_key : string;
  h_url : JsVal;
  h_version : JsVal;
  h_upload_at : string
}.

(** The objects given to [JSON.stringify]. *)
Inductive Body : Type :=
| HealthBody (status : string) (workers_ : list HealthEntry)
             (total_workers : Z)
| ErrorBody (error message request_id : string).

(** The metadata headers set on the request before it is proxied. *)
Record ProxyHeaders : Type := mkProxyHeaders {
  hdr_x_request_id : string;
  hdr_x_proxy_worker : string;
  hdr_x_proxy_worker_version : JsVal
}.

(** What a handler does with the connection. *)
Inductive Outcome : Type :=
| Respond (status : Z) (body : Body)
    (** [res.writeHead(status, ..); res.end(JSON.stringify(body))] *)
| ProxyWeb (target : JsVal) (headers : ProxyHeaders)
    (** [proxy.web(req, res, { target })] *)
| ProxyWs (target : JsVal) (headers : ProxyHeaders)
    (** [proxy.ws(req, socket, head, { target })] *)
| SocketDestroy
    (** [socket.destroy()] *)
| Throws.
    (** an exception leaves the handler before [res.end] is reached *)

Definition is_health_path (u : string) : bool :=
  (u =? "/health")%string || (u =? "/health/")%string
  || (u =? "/nginx-health")%string || (u =? "/nginx-health/")%string.

Definition health_paths : list string :=
  ["/health"; "/health/"; "/nginx-health"; "/nginx-health/"].

(** The correlation identifier: the header when it is truthy, else the
    value [uuid] that [uuidv4()] hands out. *)
Definition correlation_id (uuid : string) (req : Request) : string :=
  match x_request_id req with
  | Some h => if truthy (JStr h) then h else uuid
  | None => uuid
  end.

Definition msg_no_worker : string := "Không có worker nào đang hoạt động".

Section Gateway.

(** The text [toISOString] prints for a valid time value. *)
Variable iso8601 : Z -> string.

(** [new Date(t).toISOString()]: a time value further than 8.64e15 ms
    from the epoch makes an invalid date, on which [toISOString] throws
    a [RangeError] ([None]). *)
Definition Date_toISOString (t : Z) : option string :=
  if Z.abs t <=? 8640000000000000 then Some (iso8601 t) else None.

(** [getAllWorkers().map(w => ({ key, url, version, upload_at }))];
    [None] when a [toISOString] throws. *)
Fixpoint health_entries (ws : list Worker) : option (list HealthEntry) :=
  match ws with
  | [] => Some []
  | w :: r =>
      match Date_toISOString (upload_at w) with
      | None => None
      | Some d =>
          match health_entries r with
          | None => None
          | Some es =>
              Some ({| h_key := key w; h_url := url w;
                       h_version := version w; h_upload_at := d |} :: es)
          end
      end
  end.

(** The callback of [http.createServer]. *)
Definition request_handler (uuid : string) (req : Request)
           (p : WorkerPool) : Outcome * WorkerPool :=
  if is_health_path (req_url req) then
    match health_entries (getAllWorkers p) with
    | Some es => (Respond 200 (HealthBody "ok" es (size p)), p)
    | None => (Throws, p)
    end
  else
    let reqId := correlation_id uuid req in
    let (worker, p') := getNextWorker p in
    match worker with
    | None =>
        (Respond 503 (ErrorBody "Service Unavailable" msg_no_worker reqId),
         p')
    | Some w =>
        (ProxyWeb (url w)
           {| hdr_x_request_id := reqId;
              hdr_x_proxy_worker := key w;
              hdr_x_proxy_worker_version := version w |}, p')
    end.

(** The listener of [server.on("upgrade")]. *)
Definition upgrade_handler (uuid : string) (req : Request)
           (p : WorkerPool) : Outcome * WorkerPool :=
  let reqId := correlation_id uuid req in
  let (worker, p') := getNextWorker p in
  match worker with
  | None => (SocketDestroy, p')
  | Some w =>
      (ProxyWs (url w)
         {| hdr_x_request_id := reqId;
            hdr_x_proxy_worker := key w;
            hdr_x_proxy_worker_version := version w |}, p')
  end.

End Gateway.

(** [n] calls of [getNextWorker] in a row, with what each returned. *)
Fixpoint next_n (n : nat) (p : WorkerPool) : list (option Worker) * WorkerPool :=
  match n with
  | O => ([], p)
  | S m =>
      let (w, p1) := getNextWorker p in
      let (ws, p2) := next_n m p1 in
      (w :: ws, p2)
  end.

(** [l] read cyclically from position [c]. *)
Definition rotate {A : Type} (c : nat) (l : list A) : list A :=
  skipn c l ++ firstn c l.

(** Ascending [upload_at]. *)
Definition le_upload_at (a b : Worker) : Prop := upload_at a <= upload_at b.

(** The bounds of the cursor. *)
Definition cursor_in_bounds (p : WorkerPool) : Prop :=
  (0 < len (sortedKeys p) -> 0 <= currentIndex p < len (sortedKeys p))
  /\ (len (sortedKeys p) = 0 -> currentIndex p = 0).

(** A raw timestamp whose normal form does not depend on the clock. *)
Definition clock_free (Date_parse : string -> Num) (v : JsVal) : bool :=
  match v with
  | JNum (Finite _) => true
  | JStr s => Number_isFinite (Date_parse s)
  | _ => false
  end.

(** *** The invariant of the pool *)

(** A map entry is filed under its own key and has a truthy url. *)
Definition entry_ok (kw : string * Worker) : Prop :=
  key (snd kw) = fst kw /\ truthy (url (snd kw)) = true.

Definition map_ok (m : list (string * Worker)) : Prop :=
  NoDup (assoc_keys m) /\ Forall entry_ok m.

Record Inv (p : WorkerPool) : Prop := mkInv {
  inv_map : map_ok (workers p);
  inv_keys : sortedKeys p = map key (getAllWorkers p);
  inv_cursor : cursor_in_bounds p
}.

(** [q] differs from [p] in the map only. *)
Definition same_cursor (p q : WorkerPool) : Prop :=
  sortedKeys q = sortedKeys p
  /\ currentIndex q = currentIndex p
  /\ _firstSyncLogged q = _firstSyncLogged p.

(* ================================================================== *)
(** ** The rest of the pool's interface and the feed *)

(** The key under the cursor, [sortedKeys[currentIndex]]. *)
Definition pointed_key (p : WorkerPool) : option string :=
  arr_get (sortedKeys p) (currentIndex p).

(** The states reached through every mutating method of [WorkerPool] as
    it is called by default ([resort = true] for [updateWorker] and
    [removeWorker]). *)
Inductive reachable_api (Date_parse : string -> Num) : WorkerPool -> Prop :=
| api_new : reachable_api Date_parse new_WorkerPool
| api_sync : forall clock obj p,
    reachable_api Date_parse p ->
    reachable_api Date_parse (snd (syncFromObject Date_parse clock obj p))
| api_next : forall p,
    reachable_api Date_parse p ->
    reachable_api Date_parse (snd (getNextWorker p))
| api_update : forall now k data p,
    reachable_api Date_parse p ->
    reachable_api Date_parse (snd (updateWorker Date_parse now k data true p))
| api_remove : forall k p,
    reachable_api Date_parse p ->
    reachable_api Date_parse (snd (removeWorker k true p)).

(** The tests behind [added.push(key)] and [updated.push(key)]. *)
Definition is_added (before : list (string * Comparable))
           (e : string * JsVal) : bool :=
  truthy (get (snd e) "url") && negb (assoc_has (fst e) before).


(** Two records that sort alike: same key, same timestamp. *)
Definition sorts_alike (a b : Worker) : Prop :=
  key a = key b /\ upload_at a = upload_at b.

(** The success callback of [workersRef.on("value", ..)]:
    [workerPool.syncFromObject(snapshot.val() || {})].  (The error
    callback only logs.) *)
Definition on_value (Date_parse : string -> Num) (clock : string -> Z)
           (val : JsVal) (p : WorkerPool) : Diff * WorkerPool :=
  syncFromObject Date_parse clock (js_or val (JObj 0 [])) p.

(** *** The earlier revision of the listener

    The same file before the diff logging was added: [updateWorker] and
    [removeWorker] return nothing, [syncFromObject] hands every entry to
    [updateWorker] as it is, and the pool has no [_firstSyncLogged]. *)
Module V0.

Record WorkerPool : Type := mkPool {
  workers : list (string * Worker);
  sortedKeys : list string;
  currentIndex : Z
}.

Definition new_WorkerPool : WorkerPool :=
  {| workers := []; sortedKeys := []; currentIndex := 0 |}.

(** [_resort()] *)
Definition _resort (p : WorkerPool) : WorkerPool :=
  let currentKey := arr_get (sortedKeys p) (currentIndex p) in
  let keys := map key (sort_by_upload_at (assoc_values (workers p))) in
  if len keys =? 0 then
    {| workers := workers p; sortedKeys := keys; currentIndex := 0 |}
  else
    let no_key :=
      if len keys <=? currentIndex p
      then {| workers := workers p; sortedKeys := keys; currentIndex := 0 |}
      else {| workers := workers p; sortedKeys := keys;
              currentIndex := currentIndex p |} in
    match currentKey with
    | Some k =>
        if truthy (JStr k) then
          let idx := indexOf k keys in
          {| workers := workers p; sortedKeys := keys;
             currentIndex := if 0 <=? idx then idx else 0 |}
        else no_key
    | None => no_key
    end.

(** [updateWorker(key, data, resort)] *)
Definition updateWorker (Date_parse : string -> Num) (now : Z) (k : string)
           (data : JsVal) (resort : bool) (p : WorkerPool) : WorkerPool :=
  if negb (truthy data) || negb (truthy (get data "url")) then p
  else
    let uploadAt := normalizeUploadAt Date_parse now (get data "upload_at") in
    let p1 :=
      {| workers :=
           assoc_set k
             {| key := k;
                url := get data "url";
                upload_at := uploadAt;
                version := js_or (get data "version") (JStr "unknown");
                runner_by := js_or (get data "runner_by") (JStr "unknown") |}
             (workers p);
         sortedKeys := sortedKeys p;
         currentIndex := currentIndex p |} in
    if resort then _resort p1 else p1.

(** [removeWorker(key, resort)] *)
Definition removeWorker (k : string) (resort : bool) (p : WorkerPool)
  : WorkerPool :=
  if assoc_has k (workers p) then
    let p1 := {| workers := assoc_delete k (workers p);
                 sortedKeys := sortedKeys p;
                 currentIndex := currentIndex p |} in
    if resort then _resort p1 else p1
  else p.

(** [syncFromObject(obj)] *)
Definition syncFromObject (Date_parse : string -> Num)
           (clock : string -> Z) (obj : JsVal) (p : WorkerPool)
  : WorkerPool :=
  let nextKeys := Object_keys (js_or obj (JObj 0 [])) in
  let p1 :=
    fold_left
      (fun q k => if negb (Set_has k nextKeys) then removeWorker k false q
                  else q)
      (assoc_keys (workers p)) p in
  let p2 :=
    fold_left
      (fun q (e : string * JsVal) =>
         updateWorker Date_parse (clock (fst e)) (fst e) (snd e) false q)
      (Object_entries (js_or obj (JObj 0 []))) p1 in
  _resort p2.

End V0.

(** The later pool seen as a pool of the earlier revision. *)
Definition forget (p : WorkerPool) : V0.WorkerPool :=
  {| V0.workers := workers p; V0.sortedKeys := sortedKeys p;
     V0.currentIndex := currentIndex p |}.

(* ================================================================== *)
(** ** Sample data *)

Module Sample.

(** A parser that knows one date. *)
Definition parse (s : string) : Num :=
  if (s =? "1970-01-01T00:00:01.000Z")%string then Finite 1000 else NaN.

Definition iso (t : Z) : string :=
  if t =? 1000 then "1970-01-01T00:00:01.000Z" else "(date)".

Definition clock (t : Z) : string -> Z := fun _ => t.

Definition entry (ref : nat) (u : JsVal) (t : JsVal) : JsVal :=
  JObj ref [("url", u); ("upload_at", t)].

Definition sv_timestamp : JsVal := JObj 9 [(".sv", JStr "timestamp")].

(** Scenario 2 of the specification. *)
Definition snap2 : JsVal :=
  JObj 10 [("w1", entry 11 (JStr "http://h1") (JNum (Finite 100)));
           ("w2", entry 12 (JStr "http://h2") (JNum (Finite 50)))].

Definition pool2 : WorkerPool :=
  snd (syncFromObject parse (clock 7) snap2 new_WorkerPool).

Definition snapABC : JsVal :=
  JObj 20 [("A", entry 21 (JStr "http://a") (JNum (Finite 10)));
           ("B", entry 22 (JStr "http://b") (JNum (Finite 20)));
           ("C", entry 23 (JStr "http://c") (JNum (Finite 30)))].

(** [A,B,C] with the cursor on [B]. *)
Definition poolABC_at_B : WorkerPool :=
  snd (getNextWorker
         (snd (syncFromObject parse (clock 7) snapABC new_WorkerPool))).

(** [B] is gone, [A] and [C] stay. *)
Definition snapAC : JsVal :=
  JObj 30 [("A", entry 21 (JStr "http://a") (JNum (Finite 10)));
           ("C", entry 23 (JStr "http://c") (JNum (Finite 30)))].

(** [A] is gone, [Y] and [Z], earlier than all, are new: [B] moves. *)
Definition snapZBCD : JsVal :=
  JObj 40 [("B", entry 22 (JStr "http://b") (JNum (Finite 20)));
           ("C", entry 23 (JStr "http://c") (JNum (Finite 30)));
           ("Y", entry 24 (JStr "http://y") (JNum (Finite 1)));
           ("Z", entry 25 (JStr "http://z") (JNum (Finite 2)))].

(** [w1] comes back with an empty url. *)
Definition snap2_w1_no_url : JsVal :=
  JObj 50 [("w1", entry 51 (JStr "") (JNum (Finite 100)));
           ("w2", entry 12 (JStr "http://h2") (JNum (Finite 50)))].

(** One worker whose timestamp is still the server placeholder. *)
Definition snap_pending : JsVal :=
  JObj 60 [("w1", entry 61 (JStr "http://h1") sv_timestamp)].

(** A number and a date string as timestamps. *)
Definition snap_dated : JsVal :=
  JObj 80 [("w1", entry 81 (JStr "http://h1") (JNum (Finite 100)));
           ("w2", entry 82 (JStr "http://h2")
                    (JStr "1970-01-01T00:00:01.000Z"));
           ("w3", entry 83 JNull (JStr "tomorrow"))].

(** One worker with a timestamp beyond the range of [Date]. *)
Definition snap_far : JsVal :=
  JObj 70 [("w1", entry 71 (JStr "http://h1")
                    (JNum (Finite 8640000000000001)))].

Definition pool_far : WorkerPool :=
  snd (syncFromObject parse (clock 1000) snap_far new_WorkerPool).

(** A fourth worker, earlier than [A], [B] and [C]. *)
Definition entryD : JsVal := entry 26 (JStr "http://d") (JNum (Finite 5)).

(** [updateWorker("D", ..)] on [A,B,C] with the cursor on [B]. *)
Definition pool_with_D : WorkerPool :=
  snd (updateWorker parse 7 "D" entryD true poolABC_at_B).

(** [A], [B] and [C] again, each with a new url and version, the
    timestamps as before. *)
Definition snapABC_moved : JsVal :=
  JObj 90 [("A", JObj 91 [("url", JStr "http://a2");
                          ("upload_at", JNum (Finite 10));
                          ("version", JStr "2")]);
           ("B", JObj 92 [("url", JStr "http://b2");
                          ("upload_at", JNum (Finite 20))]);
           ("C", JObj 93 [("url", JStr "http://c2");
                          ("upload_at", JNum (Finite 30))])].


(** Two workers under the keys ["0"] and ["1"]. *)
Definition snap01 : JsVal :=
  JObj 110 [("0", entry 111 (JStr "http://h0") (JNum (Finite 1)));
            ("1", entry 112 (JStr "http://h1") (JNum (Finite 2)))].

Definition pool01 : WorkerPool :=
  snd (syncFromObject parse (clock 7) snap01 new_WorkerPool).

Definition get_health : Request :=
  {| req_url := "/health"; req_method := "GET"; x_request_id := None |}.

Definition get_health_query : Request :=
  {| req_url := "/health?x=1"; req_method := "GET";
     x_request_id := Some "req-1" |}.

End Sample.

(* ================================================================== *)
(** ** Facts about tables and arrays *)

Lemma fold_left_inv {A B : Type} (P : A -> Prop) (f : A -> B -> A) :
  (forall a b, P a -> P (f a b)) ->
  forall l a, P a -> P (fold_left f l a).
Proof.
  intros Hstep l; induction l as [|b l IH]; intros a Ha; simpl; auto.
Qed.

Section AssocFacts.
Context {V : Type}.
Implicit Types (m : list (string * V)) (k : string) (v : V).

Lemma assoc_get_set_same k v m : assoc_get k (assoc_set k v m) = Some v.
Proof.
  induction m as [|[k' v'] r IH]; simpl.
  - now rewrite String.eqb_refl.
  - destruct (String.eqb_spec k k') as [->|Hne]; simpl.
    + now rewrite String.eqb_refl.
    + destruct (String.eqb_spec k k'); [contradiction|exact IH].
Qed.

Lemma assoc_get_set_other k k' v m :
  k <> k' -> assoc_get k (assoc_set k' v m) = assoc_get k m.
Proof.
  intros Hne; induction m as [|[k2 v2] r IH]; simpl.
  - destruct (String.eqb_spec k k'); [contradiction|reflexivity].
  - destruct (String.eqb_spec k' k2) as [->|Hne2]; simpl.
    + destruct (String.eqb_spec k k2); [contradiction|reflexivity].
    + destruct (String.eqb_spec k k2); [reflexivity|exact IH].
Qed.

Lemma assoc_get_delete_other k k' m :
  k <> k' -> assoc_get k (assoc_delete k' m) = assoc_get k m.
Proof.
  intros Hne; induction m as [|[k2 v2] r IH]; simpl; [reflexivity|].
  destruct (String.eqb_spec k' k2) as [->|Hne2]; simpl.
  - destruct (String.eqb_spec k k2); [contradiction|reflexivity].
  - destruct (String.eqb_spec k k2); [reflexivity|exact IH].
Qed.

Lemma assoc_get_In k v m : assoc_get k m = Some v -> In (k, v) m.
Proof.
  induction m as [|[k' v'] r IH]; simpl; [discriminate|].
  destruct (String.eqb_spec k k') as [->|Hne]; intros H.
  - injection H as ->; now left.
  - right; auto.
Qed.

Lemma assoc_get_None k m : assoc_get k m = None <-> ~ In k (assoc_keys m).
Proof.
  induction m as [|[k' v'] r IH]; simpl; [tauto|].
  destruct (String.eqb_spec k k') as [->|Hne].
  - split; [discriminate|intros H; exfalso; apply H; now left].
  - rewrite IH; split; intros H; [intros [E|E]; [congruence|tauto]|tauto].
Qed.

Lemma assoc_has_In k m : assoc_has k m = true <-> In k (assoc_keys m).
Proof.
  unfold assoc_has; destruct (assoc_get k m) eqn:E.
  - split; [intros _|reflexivity].
    apply assoc_get_In in E.
    apply (in_map fst) in E; exact E.
  - apply assoc_get_None in E; split; [discriminate|contradiction].
Qed.

Lemma In_assoc_get k v m :
  NoDup (assoc_keys m) -> In (k, v) m -> assoc_get k m = Some v.
Proof.
  induction m as [|[k' v'] r IH]; simpl; [tauto|].
  intros Hnd [E|Hin]; inversion Hnd as [|? ? Hni Hnd']; subst.
  - injection E as -> ->; now rewrite String.eqb_refl.
  - destruct (String.eqb_spec k k') as [->|Hne]; [|auto].
    exfalso; apply Hni; apply (in_map fst) in Hin; exact Hin.
Qed.

Lemma assoc_set_id k v m : assoc_get k m = Some v -> assoc_set k v m = m.
Proof.
  induction m as [|[k' v'] r IH]; simpl; [discriminate|].
  destruct (String.eqb_spec k k') as [->|Hne]; intros H.
  - now injection H as ->.
  - now rewrite IH.
Qed.

Lemma In_assoc_set m k v x :
  In x (assoc_set k v m) -> x = (k, v) \/ In x m.
Proof.
  induction m as [|[k' v'] r IH]; simpl.
  - intros [<-|[]]; now left.
  - destruct (String.eqb_spec k k') as [->|Hne]; simpl.
    + intros [<-|H]; [now left|right; now right].
    + intros [<-|H]; [right; now left|].
      destruct (IH H); [now left|right; now right].
Qed.

Lemma In_assoc_delete m k x : In x (assoc_delete k m) -> In x m.
Proof.
  induction m as [|[k' v'] r IH]; simpl; [tauto|].
  destruct (String.eqb_spec k k'); simpl; [now right|].
  intros [<-|H]; [now left|right; auto].
Qed.

Lemma In_keys_assoc_set m k v k' :
  In k' (assoc_keys (assoc_set k v m)) <-> k' = k \/ In k' (assoc_keys m).
Proof.
  induction m as [|[k2 v2] r IH]; simpl.
  - split; [intros [<-|[]]; now left|intros [->|[]]; now left].
  - destruct (String.eqb_spec k k2) as [->|Hne]; simpl.
    + split; [intros [<-|H]; [now left|right; now right]|].
      intros [->|[<-|H]]; [now left|now left|now right].
    + rewrite IH; split.
      * intros [<-|[->|H]]; [right; now left|now left|right; now right].
      * intros [->|[<-|H]]; [right; now left|now left|right; now right].
Qed.

Lemma NoDup_assoc_set m k v :
  NoDup (assoc_keys m) -> NoDup (assoc_keys (assoc_set k v m)).
Proof.
  induction m as [|[k' v'] r IH]; simpl; intros Hnd.
  - constructor; [intros []|constructor].
  - inversion Hnd as [|? ? Hni Hnd']; subst.
    destruct (String.eqb_spec k k') as [->|Hne]; simpl.
    + now constructor.
    + constructor; [|auto].
      intros Hin; apply In_keys_assoc_set in Hin.
      destruct Hin as [->|Hin]; [now apply Hne|now apply Hni].
Qed.

Lemma NoDup_assoc_delete m k :
  NoDup (assoc_keys m) -> NoDup (assoc_keys (assoc_delete k m)).
Proof.
  induction m as [|[k' v'] r IH]; simpl; intros Hnd; [constructor|].
  inversion Hnd as [|? ? Hni Hnd']; subst.
  destruct (String.eqb_spec k k'); simpl; [assumption|].
  constructor; [|auto].
  intros Hin; apply Hni.
  apply in_map_iff in Hin; destruct Hin as [x [<- Hx]].
  apply in_map, In_assoc_delete with (k := k); exact Hx.
Qed.

Lemma assoc_get_delete_same m k :
  NoDup (assoc_keys m) -> assoc_get k (assoc_delete k m) = None.
Proof.
  induction m as [|[k' v'] r IH]; simpl; intros Hnd; [reflexivity|].
  inversion Hnd as [|? ? Hni Hnd']; subst.
  destruct (String.eqb_spec k k') as [->|Hne]; simpl.
  - now apply assoc_get_None.
  - destruct (String.eqb_spec k k'); [contradiction|auto].
Qed.

End AssocFacts.

Lemma Set_has_In k keys : Set_has k keys = true <-> In k keys.
Proof.
  unfold Set_has; rewrite existsb_exists; split.
  - intros [x [Hin E]]; apply String.eqb_eq in E; now subst.
  - intros Hin; exists k; split; [exact Hin|apply String.eqb_refl].
Qed.

Lemma len_nonneg {A : Type} (l : list A) : 0 <= len l.
Proof. unfold len; lia. Qed.

Lemma len_zero {A : Type} (l : list A) : len l = 0 <-> l = [].
Proof.
  unfold len; destruct l; simpl; split; intros H;
    try reflexivity; try discriminate; lia.
Qed.

Lemma arr_get_cons {A : Type} (x : A) (l : list A) (i : Z) :
  0 <= i -> arr_get (x :: l) (i + 1) = arr_get l i.
Proof.
  intros Hi; unfold arr_get.
  destruct (Z.ltb_spec (i + 1) 0); [lia|].
  destruct (Z.ltb_spec i 0); [lia|].
  replace (Z.to_nat (i + 1)) with (S (Z.to_nat i)) by lia; reflexivity.
Qed.

Lemma arr_get_Some {A : Type} (l : list A) (i : Z) (x : A) :
  arr_get l i = Some x -> 0 <= i < len l /\ In x l.
Proof.
  unfold arr_get, len; destruct (Z.ltb_spec i 0); [discriminate|].
  intros E; split; [|eapply nth_error_In; eauto].
  assert (Z.to_nat i < List.length l)%nat
    by (apply nth_error_Some; congruence).
  lia.
Qed.

Lemma arr_get_in_range {A : Type} (l : list A) (i : Z) :
  0 <= i < len l -> exists x, arr_get l i = Some x.
Proof.
  unfold arr_get, len; intros Hi; destruct (Z.ltb_spec i 0); [lia|].
  destruct (nth_error l (Z.to_nat i)) eqn:E; [eauto|].
  apply nth_error_None in E; lia.
Qed.

Lemma indexOf_range k l : -1 <= indexOf k l < len l.
Proof.
  unfold len; induction l as [|x r IH]; simpl; [lia|].
  destruct (x =? k)%string; [lia|].
  destruct (Z.ltb_spec (indexOf k r) 0); lia.
Qed.

Lemma indexOf_found k l :
  0 <= indexOf k l -> arr_get l (indexOf k l) = Some k.
Proof.
  induction l as [|x r IH]; simpl; [lia|].
  destruct (String.eqb_spec x k) as [->|Hne]; [reflexivity|].
  destruct (Z.ltb_spec (indexOf k r) 0); [lia|].
  intros _; rewrite arr_get_cons by assumption; auto.
Qed.

Lemma indexOf_In k l : In k l <-> 0 <= indexOf k l.
Proof.
  split.
  - induction l as [|x r IH]; simpl; [tauto|].
    destruct (String.eqb_spec x k) as [->|Hne]; [lia|].
    intros [E|Hin]; [contradiction|].
    specialize (IH Hin); destruct (Z.ltb_spec (indexOf k r) 0); lia.
  - intros H; apply indexOf_found in H; now apply arr_get_Some in H.
Qed.

Lemma indexOf_arr_get k l i :
  NoDup l -> arr_get l i = Some k -> indexOf k l = i.
Proof.
  intros Hnd; revert i; induction l as [|x r IH]; intros i E.
  - apply arr_get_Some in E; destruct E as [_ []].
  - inversion Hnd as [|? ? Hni Hnd']; subst; simpl.
    destruct (String.eqb_spec x k) as [->|Hne].
    + destruct (Z.eq_dec i 0) as [->|Hi]; [reflexivity|].
      pose proof (arr_get_Some _ _ _ E) as [Hr _].
      replace i with ((i - 1) + 1) in E by lia.
      rewrite arr_get_cons in E by lia.
      apply arr_get_Some in E; tauto.
    + pose proof (arr_get_Some _ _ _ E) as [Hr _].
      destruct (Z.eq_dec i 0) as [->|Hi].
      * unfold arr_get in E; simpl in E; congruence.
      * replace i with ((i - 1) + 1) in E by lia.
        rewrite arr_get_cons in E by lia.
        rewrite (IH Hnd' _ E).
        destruct (Z.ltb_spec (i - 1) 0); lia.
Qed.

(* ================================================================== *)
(** ** The sort *)

Lemma insert_by_upload_at_perm w l :
  Permutation (insert_by_upload_at w l) (w :: l).
Proof.
  induction l as [|x r IH]; simpl; [apply Permutation_refl|].
  destruct (upload_at w - upload_at x <=? 0); [apply Permutation_refl|].
  eapply perm_trans; [apply perm_skip, IH|apply perm_swap].
Qed.

Lemma sort_by_upload_at_perm l : Permutation (sort_by_upload_at l) l.
Proof.
  induction l as [|x r IH]; simpl; [constructor|].
  eapply perm_trans; [apply insert_by_upload_at_perm|now apply perm_skip].
Qed.

Lemma insert_by_upload_at_sorted w l :
  StronglySorted le_upload_at l ->
  StronglySorted le_upload_at (insert_by_upload_at w l).
Proof.
  induction 1 as [|x r Hs IH Hall]; simpl.
  - constructor; constructor.
  - destruct (Z.leb_spec (upload_at w - upload_at x) 0) as [Hle|Hgt].
    + constructor; [now constructor|].
      constructor; [unfold le_upload_at; lia|].
      eapply Forall_impl; [|exact Hall].
      unfold le_upload_at; intros; lia.
    + constructor; [exact IH|].
      eapply Permutation_Forall;
        [apply Permutation_sym, insert_by_upload_at_perm|].
      constructor; [unfold le_upload_at; lia|exact Hall].
Qed.

Lemma sort_by_upload_at_sorted l :
  StronglySorted le_upload_at (sort_by_upload_at l).
Proof.
  induction l as [|x r IH]; simpl;
    [constructor|now apply insert_by_upload_at_sorted].
Qed.

(** The sort is stable: the records of any one timestamp come out in the
    order they went in. *)
Lemma insert_by_upload_at_stable t w l :
  filter (fun x => upload_at x =? t) (insert_by_upload_at w l)
  = filter (fun x => upload_at x =? t) (w :: l).
Proof.
  induction l as [|x r IH]; [reflexivity|].
  cbn [insert_by_upload_at].
  destruct (Z.leb_spec (upload_at w - upload_at x) 0) as [Hle|Hgt];
    [reflexivity|].
  cbn [filter] in *; rewrite IH.
  destruct (Z.eqb_spec (upload_at w) t) as [Ew|Ew];
    destruct (Z.eqb_spec (upload_at x) t) as [Ex|Ex]; try reflexivity.
  lia.
Qed.

Lemma sort_by_upload_at_stable t l :
  filter (fun x => upload_at x =? t) (sort_by_upload_at l)
  = filter (fun x => upload_at x =? t) l.
Proof.
  induction l as [|x r IH]; [reflexivity|].
  cbn [sort_by_upload_at fold_right].
  rewrite insert_by_upload_at_stable; cbn [filter].
  fold (sort_by_upload_at r); now rewrite IH.
Qed.

Lemma sort_by_upload_at_length l :
  List.length (sort_by_upload_at l) = List.length l.
Proof. apply Permutation_length, sort_by_upload_at_perm. Qed.

Lemma sort_by_upload_at_In w l : In w (sort_by_upload_at l) <-> In w l.
Proof.
  split; apply Permutation_in;
    [|apply Permutation_sym]; apply sort_by_upload_at_perm.
Qed.

(* ================================================================== *)
(** ** The invariant of the pool *)

Lemma map_ok_keys m :
  Forall entry_ok m -> map key (assoc_values m) = assoc_keys m.
Proof.
  unfold assoc_values, assoc_keys.
  induction 1 as [|[k w] r [Hk _] _ IH]; simpl in *; [reflexivity|].
  now rewrite Hk, IH.
Qed.

Lemma map_ok_set k w m :
  map_ok m -> key w = k -> truthy (url w) = true ->
  map_ok (assoc_set k w m).
Proof.
  intros [Hnd Hall] Hk Hu; split; [now apply NoDup_assoc_set|].
  apply Forall_forall; intros x Hin.
  apply In_assoc_set in Hin; destruct Hin as [->|Hin].
  - split; assumption.
  - rewrite Forall_forall in Hall; auto.
Qed.

Lemma map_ok_delete k m : map_ok m -> map_ok (assoc_delete k m).
Proof.
  intros [Hnd Hall]; split; [now apply NoDup_assoc_delete|].
  apply Forall_forall; intros x Hin.
  apply In_assoc_delete in Hin.
  rewrite Forall_forall in Hall; auto.
Qed.

(** The keys of the sorted array are the keys of the map, each once. *)
Lemma sorted_keys_perm m :
  Forall entry_ok m ->
  Permutation (map key (sort_by_upload_at (assoc_values m))) (assoc_keys m).
Proof.
  intros Hall; rewrite <- (map_ok_keys m Hall).
  apply Permutation_map, sort_by_upload_at_perm.
Qed.

Lemma Inv_NoDup_sortedKeys p : Inv p -> NoDup (sortedKeys p).
Proof.
  intros [[Hnd Hall] Hk _]; rewrite Hk.
  eapply Permutation_NoDup;
    [apply Permutation_sym, sorted_keys_perm; exact Hall|exact Hnd].
Qed.

Lemma Inv_sortedKeys_In p k :
  Inv p -> (In k (sortedKeys p) <-> In k (assoc_keys (workers p))).
Proof.
  intros [[Hnd Hall] Hk _]; rewrite Hk; unfold getAllWorkers.
  split; apply Permutation_in;
    [|apply Permutation_sym]; now apply sorted_keys_perm.
Qed.

Lemma Inv_len p : Inv p -> len (sortedKeys p) = size p.
Proof.
  intros [_ Hk _]; rewrite Hk; unfold size, len, getAllWorkers, assoc_values.
  now rewrite length_map, sort_by_upload_at_length, length_map.
Qed.

(** A record of the map is found again under its key. *)
Lemma Inv_lookup p w :
  Inv p -> In w (getAllWorkers p) ->
  assoc_get (key w) (workers p) = Some w.
Proof.
  intros [[Hnd Hall] _ _] Hin.
  unfold getAllWorkers in Hin; apply -> sort_by_upload_at_In in Hin.
  unfold assoc_values in Hin; apply in_map_iff in Hin.
  destruct Hin as [[k w'] [E Hin]]; simpl in E; subst w'.
  rewrite Forall_forall in Hall; destruct (Hall _ Hin) as [Hk _].
  simpl in Hk; rewrite Hk; now apply In_assoc_get.
Qed.

(** *** [_resort] *)

Lemma _resort_workers p : workers (_resort p) = workers p.
Proof.
  unfold _resort; cbv zeta.
  destruct (len _ =? 0); [reflexivity|].
  destruct (arr_get _ _) as [k|];
    [destruct (truthy (JStr k)); [reflexivity|]|];
    destruct (len _ <=? _); reflexivity.
Qed.

Lemma _resort_logged p : _firstSyncLogged (_resort p) = _firstSyncLogged p.
Proof.
  unfold _resort; cbv zeta.
  destruct (len _ =? 0); [reflexivity|].
  destruct (arr_get _ _) as [k|];
    [destruct (truthy (JStr k)); [reflexivity|]|];
    destruct (len _ <=? _); reflexivity.
Qed.

Lemma _resort_sortedKeys p :
  sortedKeys (_resort p) = map key (getAllWorkers p).
Proof.
  unfold _resort; cbv zeta.
  destruct (len _ =? 0); [reflexivity|].
  destruct (arr_get _ _) as [k|];
    [destruct (truthy (JStr k)); [reflexivity|]|];
    destruct (len _ <=? _); reflexivity.
Qed.

(** What [_resort] does to the cursor, case by case. *)
Lemma _resort_currentIndex p :
  let keys := map key (getAllWorkers p) in
  currentIndex (_resort p) =
    if len keys =? 0 then 0
    else
      match arr_get (sortedKeys p) (currentIndex p) with
      | Some k =>
          if truthy (JStr k)
          then (if 0 <=? indexOf k keys then indexOf k keys else 0)
          else (if len keys <=? currentIndex p then 0 else currentIndex p)
      | None => if len keys <=? currentIndex p then 0 else currentIndex p
      end.
Proof.
  unfold _resort, getAllWorkers; cbv zeta; simpl sortedKeys.
  destruct (len _ =? 0); [reflexivity|].
  destruct (arr_get _ _) as [k|];
    [destruct (truthy (JStr k)); [reflexivity|]|];
    simpl; destruct (len _ <=? _); reflexivity.
Qed.

Lemma _resort_cursor_in_bounds p :
  0 <= currentIndex p -> cursor_in_bounds (_resort p).
Proof.
  intros Hc; unfold cursor_in_bounds.
  rewrite _resort_currentIndex, _resort_sortedKeys; cbv zeta.
  set (keys := map key (getAllWorkers p)).
  pose proof (len_nonneg keys).
  destruct (Z.eqb_spec (len keys) 0) as [E|E]; [lia|].
  split; [intros _|lia].
  destruct (arr_get _ _) as [k|].
  - destruct (truthy (JStr k)).
    + pose proof (indexOf_range k keys).
      destruct (Z.leb_spec 0 (indexOf k keys)); lia.
    + destruct (Z.leb_spec (len keys) (currentIndex p)); lia.
  - destruct (Z.leb_spec (len keys) (currentIndex p)); lia.
Qed.

Lemma _resort_Inv p :
  map_ok (workers p) -> 0 <= currentIndex p -> Inv (_resort p).
Proof.
  intros Hm Hc; constructor.
  - now rewrite _resort_workers.
  - rewrite _resort_sortedKeys; unfold getAllWorkers.
    now rewrite _resort_workers.
  - now apply _resort_cursor_in_bounds.
Qed.

(** *** [getNextWorker] *)

Lemma getNextWorker_workers p : workers (snd (getNextWorker p)) = workers p.
Proof. unfold getNextWorker; destruct (len _ =? 0); reflexivity. Qed.

Lemma getNextWorker_sortedKeys p :
  sortedKeys (snd (getNextWorker p)) = sortedKeys p.
Proof. unfold getNextWorker; destruct (len _ =? 0); reflexivity. Qed.

(** On a cursor in bounds the remainder is a plain wrap-around. *)
Lemma rem_succ c n :
  0 <= c < n -> Z.rem (c + 1) n = if c + 1 =? n then 0 else c + 1.
Proof.
  intros H; destruct (Z.eqb_spec (c + 1) n) as [E|E].
  - rewrite E; apply Z.rem_same; lia.
  - apply Z.rem_small; lia.
Qed.

Lemma getNextWorker_currentIndex p :
  cursor_in_bounds p ->
  currentIndex (snd (getNextWorker p)) =
    if len (sortedKeys p) =? 0 then 0
    else if currentIndex p + 1 =? len (sortedKeys p) then 0
         else currentIndex p + 1.
Proof.
  intros [Hpos Hzero]; unfold getNextWorker.
  pose proof (len_nonneg (sortedKeys p)).
  destruct (Z.eqb_spec (len (sortedKeys p)) 0) as [E|E]; simpl; [auto|].
  apply rem_succ; apply Hpos; lia.
Qed.

Lemma getNextWorker_Inv p : Inv p -> Inv (snd (getNextWorker p)).
Proof.
  intros HI; pose proof HI as [Hm Hk Hc]; constructor.
  - now rewrite getNextWorker_workers.
  - rewrite getNextWorker_sortedKeys; unfold getAllWorkers.
    now rewrite getNextWorker_workers.
  - unfold cursor_in_bounds.
    rewrite getNextWorker_currentIndex, getNextWorker_sortedKeys
      by assumption.
    destruct Hc as [Hpos Hzero].
    destruct (Z.eqb_spec (len (sortedKeys p)) 0) as [E|E]; [lia|].
    destruct (Z.eqb_spec (currentIndex p + 1) (len (sortedKeys p))); lia.
Qed.

(** With the invariant, the record under the cursor is the one returned. *)
Lemma getNextWorker_result p :
  Inv p -> 0 < len (sortedKeys p) ->
  exists w,
    arr_get (getAllWorkers p) (currentIndex p) = Some w
    /\ arr_get (sortedKeys p) (currentIndex p) = Some (key w)
    /\ assoc_get (key w) (workers p) = Some w
    /\ fst (getNextWorker p) = Some w.
Proof.
  intros HI Hlen; pose proof HI as [Hm Hk [Hpos _]].
  specialize (Hpos Hlen).
  assert (Hl : len (getAllWorkers p) = len (sortedKeys p))
    by (rewrite Hk; unfold len; now rewrite length_map).
  destruct (arr_get_in_range (getAllWorkers p) (currentIndex p)) as [w Hw];
    [lia|].
  exists w; split; [exact Hw|].
  assert (Hkw : arr_get (sortedKeys p) (currentIndex p) = Some (key w)).
  { rewrite Hk; unfold arr_get in *.
    destruct (currentIndex p <? 0); [discriminate|].
    now rewrite nth_error_map, Hw. }
  assert (Hg : assoc_get (key w) (workers p) = Some w).
  { apply Inv_lookup; [exact HI|]. now apply arr_get_Some in Hw. }
  repeat split; try assumption.
  unfold getNextWorker.
  destruct (Z.eqb_spec (len (sortedKeys p)) 0); [lia|].
  simpl; now rewrite Hkw.
Qed.

(** *** A full round of [getNextWorker] *)

Lemma arr_get_of_nat {A : Type} (l : list A) (c : nat) :
  arr_get l (Z.of_nat c) = nth_error l c.
Proof.
  unfold arr_get; destruct (Z.ltb_spec (Z.of_nat c) 0); [lia|].
  now rewrite Nat2Z.id.
Qed.

Lemma skipn_nth_error {A : Type} (l : list A) (c : nat) (x : A) :
  nth_error l c = Some x -> skipn c l = x :: skipn (S c) l.
Proof.
  revert c; induction l as [|y r IH]; intros [|c]; simpl;
    try discriminate.
  - now intros [= ->].
  - intros H; rewrite (IH c H); reflexivity.
Qed.

Lemma set_currentIndex_same p : set_currentIndex (currentIndex p) p = p.
Proof. now destruct p. Qed.

Lemma set_currentIndex_twice i j p :
  set_currentIndex i (set_currentIndex j p) = set_currentIndex i p.
Proof. reflexivity. Qed.

Lemma Inv_set_currentIndex p i :
  Inv p ->
  (0 < len (sortedKeys p) -> 0 <= i < len (sortedKeys p)) ->
  (len (sortedKeys p) = 0 -> i = 0) ->
  Inv (set_currentIndex i p).
Proof.
  intros [Hm Hk _] H1 H2; constructor; [exact Hm|exact Hk|].
  split; simpl; assumption.
Qed.

Lemma getNextWorker_snd p :
  cursor_in_bounds p -> 0 < len (sortedKeys p) ->
  snd (getNextWorker p) =
    set_currentIndex
      (if currentIndex p + 1 =? len (sortedKeys p)
       then 0 else currentIndex p + 1) p.
Proof.
  intros [Hpos _] Hlen; unfold getNextWorker.
  destruct (Z.eqb_spec (len (sortedKeys p)) 0); [lia|]; simpl.
  now rewrite rem_succ by auto.
Qed.

Lemma next_n_app a b p :
  next_n (a + b) p =
    (fst (next_n a p) ++ fst (next_n b (snd (next_n a p))),
     snd (next_n b (snd (next_n a p)))).
Proof.
  revert p; induction a as [|a IH]; intros p; simpl.
  - now destruct (next_n b p).
  - destruct (getNextWorker p) as [w p1]; rewrite IH.
    destruct (next_n a p1) as [r1 q1]; reflexivity.
Qed.

(** [m] calls that do not run past the end of the array return the [m]
    records from the cursor on. *)
Lemma next_n_run m :
  forall p c,
    Inv p -> currentIndex p = Z.of_nat c ->
    (c + m <= List.length (getAllWorkers p))%nat ->
    fst (next_n m p) = map Some (firstn m (skipn c (getAllWorkers p)))
    /\ snd (next_n m p) =
         set_currentIndex
           (if Z.of_nat (c + m) =? len (sortedKeys p)
            then 0 else Z.of_nat (c + m)) p.
Proof.
  induction m as [|m IH]; intros p c HI Hc Hle.
  - simpl; split; [reflexivity|].
    rewrite Nat.add_0_r, <- Hc.
    pose proof HI as [_ _ [Hpos Hzero]].
    pose proof (len_nonneg (sortedKeys p)).
    destruct (Z.eqb_spec (currentIndex p) (len (sortedKeys p))) as [E|E].
    + assert (len (sortedKeys p) = 0) by lia.
      rewrite <- (Hzero H0) at 1; now rewrite set_currentIndex_same.
    + now rewrite set_currentIndex_same.
  - assert (Hl : len (sortedKeys p) = Z.of_nat (List.length (getAllWorkers p))).
    { destruct HI as [_ Hk _]; rewrite Hk; unfold len.
      now rewrite length_map. }
    assert (Hpos : 0 < len (sortedKeys p)) by lia.
    destruct (getNextWorker_result p HI Hpos) as [w [Hw [_ [_ Hres]]]].
    rewrite Hc, arr_get_of_nat in Hw.
    pose proof HI as [_ _ Hb].
    pose proof (getNextWorker_snd p Hb Hpos) as Hsnd.
    pose proof (getNextWorker_Inv p HI) as HI1.
    simpl next_n.
    destruct (getNextWorker p) as [r p1] eqn:Hg; simpl in Hres, Hsnd, HI1.
    subst r.
    rewrite (skipn_nth_error _ _ _ Hw); simpl firstn.
    assert (Hall : getAllWorkers p1 = getAllWorkers p)
      by (rewrite Hsnd; reflexivity).
    assert (Hsk : sortedKeys p1 = sortedKeys p)
      by (rewrite Hsnd; reflexivity).
    destruct (Z.eqb_spec (currentIndex p + 1) (len (sortedKeys p)))
      as [E|E].
    + assert (m = 0)%nat by lia; subst m; simpl.
      split; [reflexivity|].
      rewrite Hsnd.
      destruct (Z.eqb_spec (Z.of_nat (c + 1)) (len (sortedKeys p)));
        [reflexivity|lia].
    + destruct (IH p1 (S c) HI1) as [H1 H2].
      * rewrite Hsnd; simpl; lia.
      * rewrite Hall; lia.
      * destruct (next_n m p1) as [rs p2]; cbn [fst snd] in *.
        rewrite H1, Hall; split; [reflexivity|].
        rewrite H2, Hsk, Hsnd, set_currentIndex_twice.
        now replace (S c + m)%nat with (c + S m)%nat by lia.
Qed.

(** A full round from cursor [c]: the sorted records read cyclically from
    [c], and the cursor is back where it was. *)
Lemma next_n_round p :
  Inv p -> 0 < size p ->
  next_n (Z.to_nat (size p)) p =
    (map Some (rotate (Z.to_nat (currentIndex p)) (getAllWorkers p)), p).
Proof.
  intros HI Hs.
  pose proof (Inv_len _ HI) as Hlen.
  assert (Hl : len (sortedKeys p) = Z.of_nat (List.length (getAllWorkers p))).
  { destruct HI as [_ Hk _]; rewrite Hk; unfold len.
    now rewrite length_map. }
  pose proof HI as [_ _ [Hpos _]].
  assert (Hb : 0 <= currentIndex p < len (sortedKeys p)) by (apply Hpos; lia).
  set (N := List.length (getAllWorkers p)) in *.
  set (c := Z.to_nat (currentIndex p)).
  assert (Hc : currentIndex p = Z.of_nat c) by (unfold c; lia).
  replace (Z.to_nat (size p)) with ((N - c) + c)%nat by lia.
  rewrite next_n_app.
  destruct (next_n_run (N - c) p c HI Hc) as [H1 H2]; [fold N; lia|].
  replace (Z.of_nat (c + (N - c))) with (len (sortedKeys p)) in H2 by lia.
  rewrite Z.eqb_refl in H2.
  assert (HI0 : Inv (set_currentIndex 0 p))
    by (apply Inv_set_currentIndex; [exact HI|lia|reflexivity]).
  destruct (next_n_run c (set_currentIndex 0 p) 0%nat HI0) as [H3 H4];
    [reflexivity|change (getAllWorkers (set_currentIndex 0 p))
                   with (getAllWorkers p); fold N; lia|].
  rewrite H2, H1, H3, H4; simpl skipn.
  change (getAllWorkers (set_currentIndex 0 p)) with (getAllWorkers p).
  change (sortedKeys (set_currentIndex 0 p)) with (sortedKeys p).
  rewrite set_currentIndex_twice.
  rewrite firstn_all2 by (rewrite length_skipn; fold N; lia).
  unfold rotate; rewrite <- map_app; f_equal.
  simpl Nat.add.
  destruct (Z.eqb_spec (Z.of_nat c) (len (sortedKeys p))); [lia|].
  rewrite <- Hc; apply set_currentIndex_same.
Qed.

(* ================================================================== *)
(** ** The reconcile *)

Section PoolFacts.

Variable Date_parse : string -> Num.

Lemma same_cursor_refl p : same_cursor p p.
Proof. repeat split. Qed.

Lemma same_cursor_trans p q r :
  same_cursor p q -> same_cursor q r -> same_cursor p r.
Proof. unfold same_cursor; intuition congruence. Qed.

Lemma removeWorker_frame k p :
  same_cursor p (snd (removeWorker k false p))
  /\ (map_ok (workers p) -> map_ok (workers (snd (removeWorker k false p)))).
Proof.
  unfold removeWorker; destruct (assoc_has k (workers p)); simpl.
  - split; [repeat split|apply map_ok_delete].
  - split; [apply same_cursor_refl|auto].
Qed.

Lemma updateWorker_frame now k data p :
  same_cursor p (snd (updateWorker Date_parse now k data false p))
  /\ (map_ok (workers p) ->
      map_ok (workers (snd (updateWorker Date_parse now k data false p)))).
Proof.
  unfold updateWorker.
  destruct (truthy data); simpl;
    [|split; [apply same_cursor_refl|auto]].
  destruct (truthy (get data "url")) eqn:Hu; simpl;
    [|split; [apply same_cursor_refl|auto]].
  destruct (assoc_get k (workers p)); simpl;
    (split; [repeat split|intros Hm; now apply map_ok_set]).
Qed.

Lemma remove_step_frame nextKeys p acc k :
  same_cursor p (snd acc) /\ (map_ok (workers p) -> map_ok (workers (snd acc))) ->
  same_cursor p (snd (remove_step nextKeys acc k))
  /\ (map_ok (workers p) ->
      map_ok (workers (snd (remove_step nextKeys acc k)))).
Proof.
  intros [Hs Hm]; unfold remove_step.
  destruct (negb (Set_has k nextKeys)); [|auto].
  pose proof (removeWorker_frame k (snd acc)) as [Hs' Hm'].
  destruct (removeWorker k false (snd acc)) as [ok q]; simpl in *.
  split; [eapply same_cursor_trans; eauto|auto].
Qed.

Lemma remove_missing_frame nextKeys p :
  same_cursor p (snd (remove_missing nextKeys p))
  /\ (map_ok (workers p) ->
      map_ok (workers (snd (remove_missing nextKeys p)))).
Proof.
  unfold remove_missing.
  apply (fold_left_inv
           (fun acc => same_cursor p (snd acc)
                       /\ (map_ok (workers p) -> map_ok (workers (snd acc))))).
  - intros a b; apply remove_step_frame.
  - split; [apply same_cursor_refl|auto].
Qed.

Lemma upsert_step_frame clock before p acc e :
  same_cursor p (snd acc) /\ (map_ok (workers p) -> map_ok (workers (snd acc))) ->
  same_cursor p (snd (upsert_step Date_parse clock before acc e))
  /\ (map_ok (workers p) ->
      map_ok (workers (snd (upsert_step Date_parse clock before acc e)))).
Proof.
  intros [Hs Hm]; unfold upsert_step.
  destruct acc as [[a u] q]; destruct e as [k raw]; simpl in *.
  destruct (_toComparable Date_parse (clock k) raw) as [c|]; [|auto].
  destruct (negb (truthy (c_url c))); [auto|].
  pose proof (updateWorker_frame (clock k) k (spread_with raw c) q)
    as [Hs' Hm'].
  destruct (updateWorker Date_parse (clock k) k (spread_with raw c) false q)
    as [changed q']; simpl in *.
  assert (same_cursor p q') by (eapply same_cursor_trans; eauto).
  destruct (negb (assoc_has k before)); [|destruct changed]; simpl; auto.
Qed.

Lemma upsert_all_frame clock before entries p :
  same_cursor p (snd (upsert_all Date_parse clock before entries p))
  /\ (map_ok (workers p) ->
      map_ok (workers (snd (upsert_all Date_parse clock before entries p)))).
Proof.
  unfold upsert_all.
  apply (fold_left_inv
           (fun acc => same_cursor p (snd acc)
                       /\ (map_ok (workers p) -> map_ok (workers (snd acc))))).
  - intros a b; apply upsert_step_frame.
  - split; [apply same_cursor_refl|auto].
Qed.

Lemma syncFromObject_resort clock obj p :
  let q := _resort (before_resort Date_parse clock obj p) in
  snd (syncFromObject Date_parse clock obj p) =
    {| workers := workers q; sortedKeys := sortedKeys q;
       currentIndex := currentIndex q; _firstSyncLogged := true |}.
Proof.
  unfold syncFromObject, before_resort.
  destruct (remove_missing _ p) as [rm p1]; simpl.
  destruct (upsert_all Date_parse _ _ _ p1) as [[a u] p2]; reflexivity.
Qed.

Lemma before_resort_frame clock obj p :
  same_cursor p (before_resort Date_parse clock obj p)
  /\ (map_ok (workers p) -> map_ok (workers (before_resort Date_parse clock obj p))).
Proof.
  unfold before_resort.
  set (nk := Object_keys _); set (es := Object_entries _).
  pose proof (remove_missing_frame nk p) as [Hs1 Hm1].
  pose proof (upsert_all_frame clock (_snapshotComparableMap p) es
                (snd (remove_missing nk p))) as [Hs2 Hm2].
  split; [eapply same_cursor_trans; eauto|auto].
Qed.

Lemma syncFromObject_Inv clock obj p :
  map_ok (workers p) -> 0 <= currentIndex p ->
  Inv (snd (syncFromObject Date_parse clock obj p)).
Proof.
  intros Hm Hc; rewrite syncFromObject_resort; cbv zeta.
  pose proof (before_resort_frame clock obj p) as [[_ [Hc' _]] Hm'].
  assert (HI : Inv (_resort (before_resort Date_parse clock obj p)))
    by (apply _resort_Inv; [auto|lia]).
  destruct HI as [H1 H2 H3]; constructor; assumption.
Qed.

Lemma new_WorkerPool_Inv : Inv new_WorkerPool.
Proof.
  constructor.
  - split; constructor.
  - reflexivity.
  - split; simpl; unfold len; simpl; lia.
Qed.

Lemma Inv_cursor_nonneg p : Inv p -> 0 <= currentIndex p.
Proof.
  intros [_ _ [Hpos Hzero]]; pose proof (len_nonneg (sortedKeys p)).
  destruct (Z.eq_dec (len (sortedKeys p)) 0); [rewrite Hzero|]; lia.
Qed.

Lemma reachable_Inv p : reachable Date_parse p -> Inv p.
Proof.
  induction 1 as [|clock obj p _ IH|p _ IH].
  - apply new_WorkerPool_Inv.
  - apply syncFromObject_Inv; [apply IH|now apply Inv_cursor_nonneg].
  - now apply getNextWorker_Inv.
Qed.

(** *** One entry of the snapshot *)

Lemma get_falsy raw k : truthy raw = false -> get raw k = JUndefined.
Proof. destruct raw; simpl; try reflexivity; discriminate. Qed.

Lemma js_or_idem a b : truthy b = true -> js_or (js_or a b) b = js_or a b.
Proof.
  intros Hb; unfold js_or; destruct (truthy a) eqn:Ha.
  - now rewrite Ha.
  - now rewrite Hb.
Qed.

Lemma truthy_js_or_empty a : truthy (js_or a (JStr "")) = truthy a.
Proof. unfold js_or; destruct (truthy a) eqn:Ha; [exact Ha|reflexivity]. Qed.

(** A string has no property called [url]: its keys are numerals. *)
Lemma index_entries_no_url s : forall i,
  assoc_get "url" (index_entries i s) = None.
Proof.
  induction s as [|c r IH]; intros i; simpl; [reflexivity|].
  rewrite IH.
  now destruct (Nat.to_uint i).
Qed.

Lemma spread_with_get raw c :
  get (spread_with raw c) "url" = get raw "url"
  /\ get (spread_with raw c) "upload_at" = JNum (Finite (c_upload_at c))
  /\ get (spread_with raw c) "version" = c_version c
  /\ get (spread_with raw c) "runner_by" = c_runner_by c.
Proof.
  unfold spread_with, get; repeat split.
  - rewrite !assoc_get_set_other by discriminate.
    destruct raw; try reflexivity.
    simpl; now rewrite index_entries_no_url.
  - rewrite !assoc_get_set_other by discriminate.
    now rewrite assoc_get_set_same.
  - rewrite !assoc_get_set_other by discriminate.
    now rewrite assoc_get_set_same.
  - now rewrite assoc_get_set_same.
Qed.

(** What the second loop does with one entry: nothing when the url is
    missing or falsy; otherwise the normalized record is written. *)
Lemma upsert_step_spec clock before a u q k raw :
  upsert_step Date_parse clock before (a, u, q) (k, raw) =
    if truthy (get raw "url") then
      let r := normalized_record Date_parse (clock k) k raw in
      let q' := set_workers (assoc_set k r (workers q)) q in
      if negb (assoc_has k before) then (a ++ [k], u, q')
      else if record_changed (assoc_get k (workers q)) r
           then (a, u ++ [k], q')
           else (a, u, q')
    else (a, u, q).
Proof.
  unfold upsert_step, _toComparable.
  destruct (truthy raw) eqn:Hraw; simpl.
  2:{ now rewrite (get_falsy raw "url" Hraw). }
  rewrite truthy_js_or_empty.
  destruct (truthy (get raw "url")) eqn:Hu; simpl; [|reflexivity].
  unfold updateWorker.
  set (c := {| c_url := _ |}).
  destruct (spread_with_get raw c) as [E1 [E2 [E3 E4]]].
  rewrite E1, E2, E3, E4, Hu; simpl.
  rewrite !js_or_idem by reflexivity.
  fold (normalized_record Date_parse (clock k) k raw).
  destruct (assoc_get k (workers q)) as [pv|]; simpl;
    destruct (negb (assoc_has k before)); try reflexivity.
Qed.

Lemma upsert_step_get_other clock before acc k' raw k :
  k <> k' ->
  assoc_get k (workers (snd (upsert_step Date_parse clock before acc (k', raw))))
  = assoc_get k (workers (snd acc)).
Proof.
  intros Hne; destruct acc as [[a u] q]; rewrite upsert_step_spec.
  destruct (truthy (get raw "url")); [|reflexivity]; cbv zeta.
  destruct (negb _); [|destruct (record_changed _ _)]; simpl;
    now apply assoc_get_set_other.
Qed.

(** Keys whose entries all lack a url keep what the map held for them. *)
Lemma upsert_all_skips clock before entries k :
  (forall raw, In (k, raw) entries -> truthy (get raw "url") = false) ->
  forall acc,
    assoc_get k
      (workers (snd (fold_left (upsert_step Date_parse clock before)
                       entries acc)))
    = assoc_get k (workers (snd acc)).
Proof.
  induction entries as [|[k' raw] es IH]; intros Hall acc; simpl;
    [reflexivity|].
  rewrite IH by (intros r Hr; apply Hall; now right).
  destruct (String.eqb_spec k k') as [<-|Hne].
  - destruct acc as [[a u] q]; rewrite upsert_step_spec.
    now rewrite (Hall raw) by now left.
  - now apply upsert_step_get_other.
Qed.

(** Keys that the snapshot has are not touched by the first loop. *)
Lemma remove_missing_keeps nextKeys p k :
  In k nextKeys ->
  assoc_get k (workers (snd (remove_missing nextKeys p)))
  = assoc_get k (workers p).
Proof.
  intros Hin; unfold remove_missing.
  apply (fold_left_inv
           (fun acc => assoc_get k (workers (snd acc))
                       = assoc_get k (workers p))); [|reflexivity].
  intros acc k' Hacc; unfold remove_step.
  destruct (Set_has k' nextKeys) eqn:Hk'; simpl; [exact Hacc|].
  assert (k <> k').
  { intros ->; apply Set_has_In in Hin; congruence. }
  unfold removeWorker; destruct (assoc_has k' (workers (snd acc))); simpl;
    [|exact Hacc].
  now rewrite assoc_get_delete_other.
Qed.

Lemma syncFromObject_workers clock obj p :
  workers (snd (syncFromObject Date_parse clock obj p))
  = workers (before_resort Date_parse clock obj p).
Proof. rewrite syncFromObject_resort; simpl; apply _resort_workers. Qed.

Lemma syncFromObject_sortedKeys clock obj p :
  sortedKeys (snd (syncFromObject Date_parse clock obj p))
  = map key (getAllWorkers (before_resort Date_parse clock obj p)).
Proof. rewrite syncFromObject_resort; simpl; apply _resort_sortedKeys. Qed.

(** The cursor after a sync, from the cursor and the sequence before. *)
Lemma syncFromObject_currentIndex clock obj p :
  let p' := snd (syncFromObject Date_parse clock obj p) in
  currentIndex p' =
    if len (sortedKeys p') =? 0 then 0
    else
      match arr_get (sortedKeys p) (currentIndex p) with
      | Some k =>
          if truthy (JStr k)
          then (if 0 <=? indexOf k (sortedKeys p')
                then indexOf k (sortedKeys p') else 0)
          else (if len (sortedKeys p') <=? currentIndex p
                then 0 else currentIndex p)
      | None =>
          if len (sortedKeys p') <=? currentIndex p
          then 0 else currentIndex p
      end.
Proof.
  cbv zeta; rewrite syncFromObject_sortedKeys.
  rewrite syncFromObject_resort; simpl currentIndex.
  rewrite _resort_currentIndex; cbv zeta.
  destruct (before_resort_frame clock obj p) as [[Hk [Hc _]] _].
  now rewrite Hk, Hc.
Qed.

(** *** A second sync of the same snapshot *)

Lemma Object_entries_js_or obj :
  Object_entries (js_or obj (JObj 0 [])) = Object_entries obj.
Proof.
  unfold js_or; destruct (truthy obj) eqn:E; [reflexivity|].
  destruct obj as [| |b|n|s|r props]; simpl in *;
    try reflexivity; try discriminate.
  now destruct s.
Qed.

Lemma Object_keys_js_or obj :
  Object_keys (js_or obj (JObj 0 [])) = Object_keys obj.
Proof. unfold Object_keys; now rewrite Object_entries_js_or. Qed.

Lemma strict_eq_refl_truthy v : truthy v = true -> strict_eq v v = true.
Proof.
  destruct v as [| |b|[z| | |]|s|r props]; simpl; try discriminate;
    intros _; try reflexivity.
  - now destruct b.
  - apply Z.eqb_refl.
  - apply String.eqb_refl.
  - apply Nat.eqb_refl.
Qed.

Lemma truthy_js_or_unknown a : truthy (js_or a (JStr "unknown")) = true.
Proof. unfold js_or; destruct (truthy a) eqn:E; [exact E|reflexivity]. Qed.

Lemma record_changed_same now k raw :
  truthy (get raw "url") = true ->
  record_changed (Some (normalized_record Date_parse now k raw))
                 (normalized_record Date_parse now k raw) = false.
Proof.
  intros Hu; unfold record_changed, strict_neq; simpl.
  rewrite (strict_eq_refl_truthy _ Hu), Z.eqb_refl.
  now rewrite !strict_eq_refl_truthy by apply truthy_js_or_unknown.
Qed.

Lemma normalizeUploadAt_clock_free now1 now2 v :
  clock_free Date_parse v = true ->
  normalizeUploadAt Date_parse now1 v = normalizeUploadAt Date_parse now2 v.
Proof.
  destruct v as [| |b|[z| | |]|s|r props]; simpl; try discriminate;
    try reflexivity.
  destruct (Date_parse s); simpl; try discriminate; reflexivity.
Qed.

Lemma set_workers_same p : set_workers (workers p) p = p.
Proof. now destruct p. Qed.

Lemma assoc_has_snapshot p k :
  assoc_has k (_snapshotComparableMap p) = assoc_has k (workers p).
Proof.
  unfold assoc_has, _snapshotComparableMap.
  induction (workers p) as [|[k' w] r IH]; simpl; [reflexivity|].
  destruct (k =? k')%string; [reflexivity|exact IH].
Qed.

(** The first loop deletes nothing when the snapshot has every key. *)
Lemma remove_missing_noop nextKeys p :
  (forall k, In k (assoc_keys (workers p)) -> In k nextKeys) ->
  remove_missing nextKeys p = ([], p).
Proof.
  unfold remove_missing; generalize (@nil string, p) as acc.
  induction (assoc_keys (workers p)) as [|k ks IH]; intros acc Hall; simpl;
    [reflexivity|].
  unfold remove_step at 2.
  assert (E : Set_has k nextKeys = true)
    by (apply Set_has_In, Hall; now left).
  rewrite E; simpl; apply IH; intros k' Hk'; apply Hall; now right.
Qed.

Lemma assoc_get_delete_None {V : Type} (m : list (string * V)) k k' :
  assoc_get k m = None -> assoc_get k (assoc_delete k' m) = None.
Proof.
  rewrite !assoc_get_None; intros Hn Hin; apply Hn.
  unfold assoc_keys in *; apply in_map_iff in Hin.
  destruct Hin as [x [<- Hx]]; apply in_map.
  eapply In_assoc_delete; eauto.
Qed.

Lemma remove_step_None nextKeys acc k' k :
  assoc_get k (workers (snd acc)) = None ->
  assoc_get k (workers (snd (remove_step nextKeys acc k'))) = None.
Proof.
  intros Hn; unfold remove_step, removeWorker.
  destruct (negb (Set_has k' nextKeys)); [|exact Hn].
  destruct (assoc_has k' (workers (snd acc))); simpl; [|exact Hn].
  now apply assoc_get_delete_None.
Qed.

(** A key that the snapshot lacks is gone after the first loop. *)
Lemma remove_missing_drops nextKeys k :
  ~ In k nextKeys ->
  forall ks acc,
    In k ks -> NoDup (assoc_keys (workers (snd acc))) ->
    assoc_get k (workers (snd (fold_left (remove_step nextKeys) ks acc)))
    = None.
Proof.
  intros Hn ks; induction ks as [|k' ks IH]; intros acc Hin Hnd; simpl;
    [destruct Hin|].
  assert (Hnd' : NoDup (assoc_keys
                          (workers (snd (remove_step nextKeys acc k'))))).
  { unfold remove_step, removeWorker.
    destruct (negb (Set_has k' nextKeys)); [|exact Hnd].
    destruct (assoc_has k' (workers (snd acc))); simpl; [|exact Hnd].
    now apply NoDup_assoc_delete. }
  destruct (String.eqb_spec k' k) as [->|Hne].
  - apply (fold_left_inv
             (fun a => assoc_get k (workers (snd a)) = None)).
    + intros a b; apply remove_step_None.
    + unfold remove_step, removeWorker.
      assert (E : Set_has k nextKeys = false).
      { destruct (Set_has k nextKeys) eqn:E; [|reflexivity].
        apply Set_has_In in E; contradiction. }
      rewrite E; simpl.
      unfold assoc_has.
      destruct (assoc_get k (workers (snd acc))) eqn:G; simpl;
        [now apply assoc_get_delete_same|exact G].
  - apply IH; [|exact Hnd'].
    destruct Hin as [E|Hin]; [contradiction|exact Hin].
Qed.

Lemma upsert_all_keys clock before es :
  forall acc k,
    In k (assoc_keys
            (workers (snd (fold_left (upsert_step Date_parse clock before)
                             es acc)))) ->
    In k (assoc_keys (workers (snd acc))) \/ In k (map fst es).
Proof.
  induction es as [|[k' raw] es IH]; intros acc k Hin; simpl in *;
    [now left|].
  destruct (IH _ _ Hin) as [H|H]; [|right; now right].
  destruct acc as [[a u] q]; rewrite upsert_step_spec in H.
  destruct (truthy (get raw "url")); [|now left]; cbv zeta in H.
  assert (In k (assoc_keys (assoc_set k' (normalized_record Date_parse (clock k') k' raw)
                              (workers q)))).
  { destruct (negb _); [|destruct (record_changed _ _)]; exact H. }
  apply In_keys_assoc_set in H0; destruct H0 as [->|H0];
    [right; now left|now left].
Qed.

(** After a sync the map has no key that the snapshot lacks. *)
Lemma before_resort_keys clock obj p k :
  NoDup (assoc_keys (workers p)) ->
  In k (assoc_keys (workers (before_resort Date_parse clock obj p))) ->
  In k (Object_keys obj).
Proof.
  intros Hnd Hin; unfold before_resort, upsert_all in Hin.
  rewrite Object_entries_js_or, Object_keys_js_or in Hin.
  apply upsert_all_keys in Hin; destruct Hin as [Hin|Hin]; [|exact Hin].
  destruct (in_dec string_dec k (Object_keys obj)) as [Hk|Hk]; [exact Hk|].
  exfalso; apply assoc_has_In in Hin; unfold assoc_has in Hin.
  assert (Hold : In k (assoc_keys (workers p))).
  { destruct (in_dec string_dec k (assoc_keys (workers p))) as [H|H];
      [exact H|].
    apply assoc_get_None in H.
    assert (assoc_get k (workers (snd (remove_missing (Object_keys obj) p)))
            = None).
    { unfold remove_missing.
      apply (fold_left_inv
               (fun a => assoc_get k (workers (snd a)) = None));
        [intros a b; apply remove_step_None|exact H]. }
    simpl in Hin; rewrite H0 in Hin; discriminate. }
  unfold remove_missing in Hin; simpl in Hin.
  rewrite (remove_missing_drops _ k Hk _ ([], p) Hold Hnd) in Hin.
  discriminate.
Qed.

(** With distinct keys, every valid entry is in the map after the second
    loop, as its normalized record. *)
Lemma upsert_all_sets clock before es :
  NoDup (map fst es) ->
  forall acc k raw,
    In (k, raw) es -> truthy (get raw "url") = true ->
    assoc_get k
      (workers (snd (fold_left (upsert_step Date_parse clock before)
                       es acc)))
    = Some (normalized_record Date_parse (clock k) k raw).
Proof.
  induction es as [|[k' raw'] es IH]; intros Hnd acc k raw Hin Hu;
    [destruct Hin|].
  simpl in Hnd; inversion Hnd as [|? ? Hni Hnd']; subst; simpl.
  destruct Hin as [E|Hin]; [|now apply IH].
  injection E as -> ->.
  rewrite upsert_all_skips.
  - destruct acc as [[a u] q]; rewrite upsert_step_spec, Hu; cbv zeta.
    destruct (negb _); [|destruct (record_changed _ _)]; simpl;
      apply assoc_get_set_same.
  - intros r Hr; exfalso; apply Hni.
    apply (in_map fst) in Hr; exact Hr.
Qed.

(** The second loop changes nothing when the map already holds the
    normalized record of every valid entry. *)
Lemma upsert_all_noop clock before es q :
  (forall k raw,
      In (k, raw) es -> truthy (get raw "url") = true ->
      assoc_has k before = true
      /\ assoc_get k (workers q)
         = Some (normalized_record Date_parse (clock k) k raw)) ->
  forall a u,
    fold_left (upsert_step Date_parse clock before) es (a, u, q) = (a, u, q).
Proof.
  induction es as [|[k raw] es IH]; intros Hall a u; cbn [fold_left];
    [reflexivity|].
  rewrite upsert_step_spec.
  destruct (truthy (get raw "url")) eqn:Hu.
  - destruct (Hall k raw (or_introl eq_refl) Hu) as [Hb Hg]; cbv zeta.
    rewrite Hb, Hg, (record_changed_same _ _ _ Hu); simpl.
    rewrite (assoc_set_id _ _ _ Hg), set_workers_same.
    apply IH; intros k' raw' Hin; apply Hall; now right.
  - apply IH; intros k' raw' Hin; apply Hall; now right.
Qed.

Lemma _resort_fixpoint p : Inv p -> _resort p = p.
Proof.
  intros HI.
  assert (Hk : sortedKeys (_resort p) = sortedKeys p)
    by (rewrite _resort_sortedKeys; symmetry; apply HI).
  assert (Hc : currentIndex (_resort p) = currentIndex p).
  { rewrite _resort_currentIndex; cbv zeta.
    destruct HI as [Hm Hkeys [Hpos Hzero]].
    pose proof (Inv_NoDup_sortedKeys p (mkInv p Hm Hkeys (conj Hpos Hzero)))
      as Hnd.
    rewrite <- Hkeys.
    pose proof (len_nonneg (sortedKeys p)).
    destruct (Z.eqb_spec (len (sortedKeys p)) 0) as [E|E];
      [symmetry; auto|].
    assert (Hb : 0 <= currentIndex p < len (sortedKeys p)) by (apply Hpos; lia).
    destruct (arr_get (sortedKeys p) (currentIndex p)) as [k|] eqn:G.
    - destruct (truthy (JStr k)).
      + rewrite (indexOf_arr_get _ _ _ Hnd G).
        destruct (Z.leb_spec 0 (currentIndex p)); [reflexivity|lia].
      + destruct (Z.leb_spec (len (sortedKeys p)) (currentIndex p));
          [lia|reflexivity].
    - destruct (Z.leb_spec (len (sortedKeys p)) (currentIndex p));
        [lia|reflexivity]. }
  pose proof (_resort_workers p) as Hw.
  pose proof (_resort_logged p) as Hl.
  destruct (_resort p), p; simpl in *; congruence.
Qed.

Lemma syncFromObject_logged clock obj p :
  _firstSyncLogged (snd (syncFromObject Date_parse clock obj p)) = true.
Proof. now rewrite syncFromObject_resort. Qed.

(** Syncing a snapshot again, when no valid entry's timestamp depends on
    a clock that has moved, finds nothing to do. *)
Lemma syncFromObject_twice clock1 clock2 obj p :
  Inv p ->
  NoDup (Object_keys obj) ->
  (forall k raw,
      In (k, raw) (Object_entries obj) -> truthy (get raw "url") = true ->
      clock_free Date_parse (get raw "upload_at") = true
      \/ clock1 k = clock2 k) ->
  let p1 := snd (syncFromObject Date_parse clock1 obj p) in
  syncFromObject Date_parse clock2 obj p1 =
    ({| added := []; removed := []; updated := [] |}, p1).
Proof.
  intros HI Hnd Hfree p1.
  assert (HI1 : Inv p1).
  { apply syncFromObject_Inv; [apply HI|now apply Inv_cursor_nonneg]. }
  assert (Hw1 : workers p1 = workers (before_resort Date_parse clock1 obj p))
    by apply syncFromObject_workers.
  unfold syncFromObject at 1.
  rewrite Object_entries_js_or, Object_keys_js_or.
  rewrite remove_missing_noop.
  2:{ intros k Hk; rewrite Hw1 in Hk.
      eapply before_resort_keys; [apply HI|exact Hk]. }
  unfold upsert_all; rewrite upsert_all_noop.
  - rewrite (_resort_fixpoint p1 HI1).
    pose proof (syncFromObject_logged clock1 obj p) as Hl; fold p1 in Hl.
    destruct p1; simpl in *; now rewrite Hl.
  - intros k raw Hin Hu.
    assert (Hg : assoc_get k (workers p1)
                 = Some (normalized_record Date_parse (clock1 k) k raw)).
    { rewrite Hw1; unfold before_resort, upsert_all.
      rewrite Object_entries_js_or.
      apply upsert_all_sets; assumption. }
    split.
    + rewrite assoc_has_snapshot; unfold assoc_has; now rewrite Hg.
    + rewrite Hg; f_equal; unfold normalized_record; f_equal.
      destruct (Hfree k raw Hin Hu) as [Hf|Hc].
      * now apply normalizeUploadAt_clock_free.
      * now rewrite Hc.
Qed.

End PoolFacts.

(* ================================================================== *)
(** ** Properties of the registry, the dispatcher and the gateway *)

Section Claims.

Variable Date_parse : string -> Num.
Variable iso8601 : Z -> string.

(** C5.  Cursor bounds: in every state the pool goes through, and hence
    after every reconcile and after every [getNextWorker], the cursor
    satisfies [0 <= currentIndex < sortedKeys.length] when the sequence is
    not empty, and is [0] when it is empty. *)
Theorem cursor_bounds_invariant (p : WorkerPool) :
  reachable Date_parse p ->
  cursor_in_bounds p
  /\ (forall clock obj,
         cursor_in_bounds (snd (syncFromObject Date_parse clock obj p)))
  /\ cursor_in_bounds (snd (getNextWorker p)).
Proof.
  intros Hr; split; [|split].
  - apply (reachable_Inv Date_parse p Hr).
  - intros clock obj.
    apply (reachable_Inv Date_parse), reach_sync, Hr.
  - apply (reachable_Inv Date_parse), reach_next, Hr.
Qed.

(** C9.  In every state reached through [syncFromObject] and
    [getNextWorker], every key of [sortedKeys] is a key of the [workers]
    map; so with a non-empty registry [getNextWorker] returns a record of
    the map (the lookup behind [worker || null] never misses), and it
    returns [null] exactly when the registry is empty. *)
Theorem getNextWorker_returns_a_record (p : WorkerPool) :
  reachable Date_parse p ->
  (forall k, In k (sortedKeys p) -> assoc_has k (workers p) = true)
  /\ (0 < size p ->
      exists w, arr_get (sortedKeys p) (currentIndex p) = Some (key w)
                /\ assoc_get (key w) (workers p) = Some w
                /\ fst (getNextWorker p) = Some w)
  /\ (fst (getNextWorker p) = None <-> size p = 0).
Proof.
  intros Hr; pose proof (reachable_Inv _ _ Hr) as HI.
  pose proof (Inv_len _ HI) as Hlen.
  split; [|split].
  - intros k Hk; apply assoc_has_In; now apply (Inv_sortedKeys_In p k HI).
  - intros Hs.
    destruct (getNextWorker_result p HI) as [w [_ [H1 [H2 H3]]]]; [lia|].
    exists w; auto.
  - split.
    + intros Hn; pose proof (len_nonneg (sortedKeys p)).
      destruct (Z.eq_dec (size p) 0) as [E|E]; [exact E|].
      destruct (getNextWorker_result p HI) as [w [_ [_ [_ H3]]]]; [lia|].
      congruence.
    + intros E; unfold getNextWorker.
      rewrite Hlen, E; reflexivity.
Qed.

(** C6.  With an empty registry [getNextWorker] returns [null]; a plain
    request (one that is not a health check) is then answered 503 with
    the body [{ error: "Service Unavailable", message, request_id }] and
    nothing is forwarded, and an upgrade request has its socket destroyed
    with no status written.  The pool is left as it was. *)
Theorem empty_registry_no_worker (p : WorkerPool) :
  reachable Date_parse p -> size p = 0 ->
  getNextWorker p = (None, p)
  /\ (forall uuid req,
         is_health_path (req_url req) = false ->
         request_handler iso8601 uuid req p =
           (Respond 503
              (ErrorBody "Service Unavailable" msg_no_worker
                 (correlation_id uuid req)), p))
  /\ (forall uuid req, upgrade_handler uuid req p = (SocketDestroy, p)).
Proof.
  intros Hr Hs; pose proof (reachable_Inv _ _ Hr) as HI.
  assert (E : getNextWorker p = (None, p)).
  { unfold getNextWorker; now rewrite (Inv_len _ HI), Hs. }
  split; [exact E|split].
  - intros uuid req Hh; unfold request_handler; now rewrite Hh, E.
  - intros uuid req; unfold upgrade_handler; now rewrite E.
Qed.

(** C10.  The health short-circuit is an exact string match against
    ["/health"], ["/health/"], ["/nginx-health"] and ["/nginx-health/"]:
    on these four urls the handler takes the health branch, it answers
    with the listing built from [getAllWorkers] (or throws while building
    it), never calls [getNextWorker] and leaves the pool as it is.
    Any other url, ["/health?x=1"] among them, goes through
    [getNextWorker]: the pool moves on by one rotation and the request is
    proxied to the record returned, or answered 503 when there is none. *)
Theorem health_match_is_exact (uuid : string) (req : Request)
        (p : WorkerPool) :
  (is_health_path (req_url req) = true <-> In (req_url req) health_paths)
  /\ (In (req_url req) health_paths ->
      request_handler iso8601 uuid req p =
        (match health_entries iso8601 (getAllWorkers p) with
         | Some es => Respond 200 (HealthBody "ok" es (size p))
         | None => Throws
         end, p))
  /\ ~ In "/health?x=1" health_paths
  /\ (~ In (req_url req) health_paths ->
      request_handler iso8601 uuid req p =
        (match fst (getNextWorker p) with
         | Some w =>
             ProxyWeb (url w)
               {| hdr_x_request_id := correlation_id uuid req;
                  hdr_x_proxy_worker := key w;
                  hdr_x_proxy_worker_version := version w |}
         | None =>
             Respond 503
               (ErrorBody "Service Unavailable" msg_no_worker
                  (correlation_id uuid req))
         end, snd (getNextWorker p)))
  /\ (~ In (req_url req) health_paths ->
      reachable Date_parse p -> 0 < size p ->
      currentIndex (snd (request_handler iso8601 uuid req p)) =
        (currentIndex p + 1) mod size p).
Proof.
  assert (Hiff : forall u,
             is_health_path u = true <-> In u health_paths).
  { intros u; unfold is_health_path, health_paths; simpl.
    rewrite !orb_true_iff, !String.eqb_eq.
    split; intros H; intuition auto. }
  assert (Hdisp : ~ In (req_url req) health_paths ->
                  request_handler iso8601 uuid req p =
                    (match fst (getNextWorker p) with
                     | Some w =>
                         ProxyWeb (url w)
                           {| hdr_x_request_id := correlation_id uuid req;
                              hdr_x_proxy_worker := key w;
                              hdr_x_proxy_worker_version := version w |}
                     | None =>
                         Respond 503
                           (ErrorBody "Service Unavailable" msg_no_worker
                              (correlation_id uuid req))
                     end, snd (getNextWorker p))).
  { intros Hn; unfold request_handler.
    destruct (is_health_path (req_url req)) eqn:E;
      [exfalso; apply Hn, Hiff, E|].
    destruct (getNextWorker p) as [[w|] p']; reflexivity. }
  split; [apply Hiff|split; [|split; [|split]]].
  - intros Hin; apply Hiff in Hin.
    unfold request_handler; rewrite Hin.
    now destruct (health_entries iso8601 (getAllWorkers p)).
  - simpl; intros [H|[H|[H|[H|[]]]]]; discriminate.
  - exact Hdisp.
  - intros Hn Hr Hs; rewrite (Hdisp Hn); simpl.
    pose proof (reachable_Inv _ _ Hr) as HI.
    pose proof HI as [_ _ Hc].
    rewrite (getNextWorker_currentIndex p Hc), (Inv_len _ HI).
    destruct Hc as [Hpos _]; rewrite (Inv_len _ HI) in Hpos.
    specialize (Hpos Hs).
    destruct (Z.eqb_spec (size p) 0); [lia|].
    destruct (Z.eqb_spec (currentIndex p + 1) (size p)) as [E|E].
    + rewrite E; symmetry; apply Z.mod_same; lia.
    + symmetry; apply Z.mod_small; lia.
Qed.

(** C7.  [normalizeUploadAt] gives an epoch number for every raw value: a
    (finite) number is kept as it is; a string that [Date.parse] reads is
    turned into its epoch; the pending placeholder
    [{ ".sv": "timestamp" }] becomes the time of receipt; and everything
    else (text that is no date, [null], [undefined], booleans, other
    objects, and the non-finite [NaN], [Infinity]) becomes the time of
    receipt too. *)
Theorem normalizeUploadAt_cases (now : Z) :
  (forall z, normalizeUploadAt Date_parse now (JNum (Finite z)) = z)
  /\ (forall s t,
         Date_parse s = Finite t ->
         normalizeUploadAt Date_parse now (JStr s) = t)
  /\ (forall ref props,
         get (JObj ref props) ".sv" = JStr "timestamp" ->
         normalizeUploadAt Date_parse now (JObj ref props) = now)
  /\ (forall v,
         clock_free Date_parse v = false ->
         normalizeUploadAt Date_parse now v = now).
Proof.
  split; [reflexivity|split; [|split]].
  - intros s t E; simpl; now rewrite E.
  - intros ref props E; unfold normalizeUploadAt.
    now destruct (_ && _).
  - intros v Hv; unfold normalizeUploadAt.
    destruct v as [| |b|[z| | |]|s|ref props]; simpl in *;
      try discriminate; try reflexivity.
    + now destruct b.
    + destruct (Date_parse s); simpl in Hv; try discriminate; reflexivity.
    + now destruct (strict_eq _ _).
Qed.

(** C1 (amended).  After every [syncFromObject] the cursor is placed as
    follows.  When the recomputed sequence is empty the cursor is [0].
    When the cursor pointed at a (non-empty) key that is still in the
    recomputed sequence, it points at that key's new position; this is
    the stability under reorder.  When that key is no longer in the
    sequence the cursor is reset to [0], whether or not the old index is
    still in range.  Only when the cursor pointed at no key (or at the
    empty-string key, which the test [if (currentKey)] takes for none) is
    the old index kept while it is in range and reset to [0] otherwise. *)
Theorem reconcile_cursor_adjustment (clock : string -> Z) (obj : JsVal)
        (p : WorkerPool) :
  let p' := snd (syncFromObject Date_parse clock obj p) in
  (sortedKeys p' = [] -> currentIndex p' = 0)
  /\ (forall k,
         arr_get (sortedKeys p) (currentIndex p) = Some k -> k <> "" ->
         In k (sortedKeys p') ->
         currentIndex p' = indexOf k (sortedKeys p')
         /\ arr_get (sortedKeys p') (currentIndex p') = Some k)
  /\ (forall k,
         arr_get (sortedKeys p) (currentIndex p) = Some k -> k <> "" ->
         ~ In k (sortedKeys p') ->
         currentIndex p' = 0)
  /\ (arr_get (sortedKeys p) (currentIndex p) = None
      \/ arr_get (sortedKeys p) (currentIndex p) = Some "" ->
      sortedKeys p' <> [] ->
      currentIndex p' =
        if len (sortedKeys p') <=? currentIndex p
        then 0 else currentIndex p).
Proof.
  intros p'; pose proof (syncFromObject_currentIndex Date_parse clock obj p)
    as Hc.
  cbv zeta in Hc; fold p' in Hc.
  assert (Htr : forall k, k <> "" -> truthy (JStr k) = true).
  { intros k Hk; simpl; now destruct (String.eqb_spec k ""). }
  split; [|split; [|split]].
  - intros E; rewrite Hc, E; reflexivity.
  - intros k Hk Hne Hin; rewrite Hk, (Htr k Hne) in Hc.
    assert (len (sortedKeys p') <> 0)
      by (rewrite len_zero; intros E; rewrite E in Hin; exact Hin).
    destruct (Z.eqb_spec (len (sortedKeys p')) 0); [contradiction|].
    apply indexOf_In in Hin.
    destruct (Z.leb_spec 0 (indexOf k (sortedKeys p'))); [|lia].
    split; [exact Hc|rewrite Hc; now apply indexOf_found].
  - intros k Hk Hne Hin; rewrite Hk, (Htr k Hne) in Hc.
    destruct (len (sortedKeys p') =? 0); [exact Hc|].
    destruct (Z.leb_spec 0 (indexOf k (sortedKeys p'))) as [H|H];
      [|exact Hc].
    exfalso; apply Hin; now apply indexOf_In.
  - intros Hk Hne.
    destruct (Z.eqb_spec (len (sortedKeys p')) 0) as [E|E];
      [apply len_zero in E; contradiction|].
    destruct Hk as [Hk|Hk]; rewrite Hk in Hc; exact Hc.
Qed.

(** C2 (amended).  An entry of the snapshot whose url is missing or empty
    is skipped: the sync leaves the registry, for that key, exactly as it
    was, so the key is never added, and a record it already had stays
    (it is not removed).  Under any sequence of syncs every record of the
    map is filed under its own key and has a non-empty url, and every key
    of the ordered sequence has such a record. *)
Theorem invalid_url_entry_is_skipped (p : WorkerPool) :
  reachable Date_parse p ->
  (forall clock obj k,
      In k (Object_keys obj) ->
      (forall raw,
          In (k, raw) (Object_entries obj) ->
          truthy (get raw "url") = false) ->
      assoc_get k (workers (snd (syncFromObject Date_parse clock obj p)))
      = assoc_get k (workers p))
  /\ (forall k w,
         In (k, w) (workers p) -> key w = k /\ truthy (url w) = true)
  /\ (forall k,
         In k (sortedKeys p) ->
         exists w, assoc_get k (workers p) = Some w
                   /\ key w = k /\ truthy (url w) = true).
Proof.
  intros Hr; pose proof (reachable_Inv _ _ Hr) as HI.
  assert (Hent : forall k w,
             In (k, w) (workers p) -> key w = k /\ truthy (url w) = true).
  { intros k w Hin; destruct HI as [[_ Hall] _ _].
    rewrite Forall_forall in Hall; exact (Hall _ Hin). }
  split; [|split; [exact Hent|]].
  - intros clock obj k Hin Hbad.
    rewrite syncFromObject_workers; unfold before_resort, upsert_all.
    rewrite Object_entries_js_or, Object_keys_js_or.
    rewrite (upsert_all_skips Date_parse clock _ _ k Hbad); simpl.
    now apply remove_missing_keeps.
  - intros k Hk; apply (Inv_sortedKeys_In p k HI) in Hk.
    apply assoc_has_In in Hk; unfold assoc_has in Hk.
    destruct (assoc_get k (workers p)) as [w|] eqn:E; [|discriminate].
    exists w; split; [reflexivity|].
    apply Hent; now apply assoc_get_In.
Qed.

(** C3 (amended).  Reconcile is idempotent for every snapshot in which no
    valid entry's timestamp is read off a clock that has moved between
    the two calls: each entry with a url carries a finite number or a
    string that [Date.parse] reads (or the clock shows the same time for
    it in both calls).  The second [syncFromObject] then has empty
    [added], [removed] and [updated] lists and leaves the map, the
    ordered sequence and the cursor as they were. *)
Theorem reconcile_idempotent (clock1 clock2 : string -> Z) (obj : JsVal)
        (p : WorkerPool) :
  reachable Date_parse p ->
  NoDup (Object_keys obj) ->
  (forall k raw,
      In (k, raw) (Object_entries obj) -> truthy (get raw "url") = true ->
      clock_free Date_parse (get raw "upload_at") = true
      \/ clock1 k = clock2 k) ->
  let p1 := snd (syncFromObject Date_parse clock1 obj p) in
  let r := syncFromObject Date_parse clock2 obj p1 in
  no_diff (fst r)
  /\ sortedKeys (snd r) = sortedKeys p1
  /\ currentIndex (snd r) = currentIndex p1
  /\ workers (snd r) = workers p1.
Proof.
  intros Hr Hnd Hfree p1 r; unfold r, p1.
  rewrite (syncFromObject_twice Date_parse clock1 clock2 obj p
             (reachable_Inv _ _ Hr) Hnd Hfree); simpl.
  repeat split.
Qed.

(** C4 (amended).  With a non-empty registry of size [N], [N] calls of
    [getNextWorker] in a row return every record exactly once, in the
    cyclic order of the ascending-[upload_at] sequence starting at the
    cursor, and leave the cursor where it was; from cursor [0], as after
    the first sync, that is ascending [upload_at] order. *)
Theorem round_robin_full_cycle (p : WorkerPool) :
  reachable Date_parse p -> 0 < size p ->
  let ws := getAllWorkers p in
  let served := rotate (Z.to_nat (currentIndex p)) ws in
  next_n (Z.to_nat (size p)) p = (map Some served, p)
  /\ StronglySorted le_upload_at ws
  /\ sortedKeys p = map key ws
  /\ Permutation (map key served) (assoc_keys (workers p))
  /\ NoDup (map key served)
  /\ (currentIndex p = 0 -> served = ws).
Proof.
  intros Hr Hs ws served; pose proof (reachable_Inv _ _ Hr) as HI.
  assert (Hp : Permutation served ws).
  { unfold served, rotate.
    eapply perm_trans; [apply Permutation_app_comm|].
    now rewrite firstn_skipn. }
  assert (Hk : Permutation (map key served) (assoc_keys (workers p))).
  { eapply perm_trans; [apply Permutation_map, Hp|].
    apply sorted_keys_perm, HI. }
  split; [now apply next_n_round|].
  split; [apply sort_by_upload_at_sorted|].
  split; [apply HI|].
  split; [exact Hk|].
  split.
  - eapply Permutation_NoDup; [apply Permutation_sym, Hk|apply HI].
  - intros E; unfold served, rotate; rewrite E; simpl.
    apply app_nil_r.
Qed.

(** A health request never touches the pool; it answers 200 with the
    sorted records whenever every timestamp is within the range of
    [Date]. *)
Lemma health_request_frame (uuid : string) (req : Request) (p : WorkerPool) :
  In (req_url req) health_paths ->
  snd (request_handler iso8601 uuid req p) = p
  /\ (Forall (fun w => Z.abs (upload_at w) <= 8640000000000000)
             (getAllWorkers p) ->
      fst (request_handler iso8601 uuid req p) =
        Respond 200
          (HealthBody "ok"
             (map (fun w => {| h_key := key w; h_url := url w;
                               h_version := version w;
                               h_upload_at := iso8601 (upload_at w) |})
                  (getAllWorkers p))
             (size p))).
Proof.
  intros Hin; unfold request_handler.
  assert (E : is_health_path (req_url req) = true).
  { unfold is_health_path, health_paths in *; simpl in Hin.
    rewrite !orb_true_iff, !String.eqb_eq; intuition auto. }
  rewrite E; split.
  - now destruct (health_entries _).
  - intros Hall.
    assert (Hh : health_entries iso8601 (getAllWorkers p) =
                 Some (map (fun w => {| h_key := key w; h_url := url w;
                                        h_version := version w;
                                        h_upload_at := iso8601 (upload_at w) |})
                           (getAllWorkers p))).
    { induction Hall as [|w r Hw _ IH]; simpl; [reflexivity|].
      unfold Date_toISOString.
      destruct (Z.leb_spec (Z.abs (upload_at w)) 8640000000000000); [|lia].
      now rewrite IH. }
    now rewrite Hh.
Qed.

End Claims.

(* ================================================================== *)
(** ** The properties on the sample data *)

Import Sample.

(** Scenario 2: the order is [w2, w1] and the calls return w2, w1, w2. *)
Example scenario2_order :
  sortedKeys pool2 = ["w2"; "w1"]
  /\ map (option_map key) (fst (next_n 3 pool2))
     = [Some "w2"; Some "w1"; Some "w2"].
Proof. split; reflexivity. Qed.

(** Scenario 1: an empty snapshot. *)
Example scenario1_empty (iso : Z -> string) :
  let p := snd (syncFromObject parse (clock 7) (JObj 1 []) new_WorkerPool) in
  fst (getNextWorker p) = None
  /\ fst (request_handler iso "id" get_health p)
     = Respond 200 (HealthBody "ok" [] 0).
Proof. split; reflexivity. Qed.

Lemma reconcile_cursor_adjustment_witness :
  let p' := snd (syncFromObject parse (clock 8) snapZBCD poolABC_at_B) in
  arr_get (sortedKeys poolABC_at_B) (currentIndex poolABC_at_B) = Some "B"
  /\ sortedKeys poolABC_at_B = ["A"; "B"; "C"]
  /\ sortedKeys p' = ["Y"; "Z"; "B"; "C"]
  /\ currentIndex p' = indexOf "B" (sortedKeys p')
  /\ arr_get (sortedKeys p') (currentIndex p') = Some "B".
Proof.
  intros p'.
  assert (H1 : arr_get (sortedKeys poolABC_at_B) (currentIndex poolABC_at_B)
               = Some "B") by reflexivity.
  assert (H2 : "B" <> "") by discriminate.
  assert (H3 : In "B" (sortedKeys p')) by (vm_compute; tauto).
  split; [exact H1|split; [reflexivity|split; [reflexivity|]]].
  exact (proj1 (proj2 (reconcile_cursor_adjustment
                         parse (clock 8) snapZBCD poolABC_at_B))
               "B" H1 H2 H3).
Defined.

(** The key under the cursor is gone, the old index [1] is still in range
    of the new sequence, and the cursor is reset to [0] all the same. *)
Lemma reconcile_cursor_adjustment_counterexample :
  let p := poolABC_at_B in
  let p' := snd (syncFromObject parse (clock 8) snapAC p) in
  reachable parse p
  /\ arr_get (sortedKeys p) (currentIndex p) = Some "B"
  /\ sortedKeys p' = ["A"; "C"]
  /\ ~ In "B" (sortedKeys p')
  /\ currentIndex p = 1
  /\ currentIndex p < len (sortedKeys p')
  /\ currentIndex p' = 0
  /\ currentIndex p' <> currentIndex p.
Proof.
  cbv zeta; repeat split; try reflexivity.
  - apply reach_next, reach_sync, reach_new.
  - simpl; intros [H|[H|[]]]; discriminate.
  - discriminate.
Qed.

Lemma invalid_url_entry_is_skipped_witness :
  reachable parse pool2
  /\ In "w1" (Object_keys snap2_w1_no_url)
  /\ assoc_get "w1"
       (workers (snd (syncFromObject parse (clock 8) snap2_w1_no_url pool2)))
     = assoc_get "w1" (workers pool2).
Proof.
  assert (Hr : reachable parse pool2) by (apply reach_sync, reach_new).
  assert (Hk : In "w1" (Object_keys snap2_w1_no_url)) by (simpl; tauto).
  split; [exact Hr|split; [exact Hk|]].
  apply (proj1 (invalid_url_entry_is_skipped parse pool2 Hr)
               (clock 8) snap2_w1_no_url "w1" Hk).
  intros raw [H|[H|[]]]; [injection H as <-; reflexivity|discriminate].
Defined.

(** [w1] comes with an empty url while the registry holds it: the sync
    does not remove it, it stays in the map and in the sequence. *)
Lemma invalid_url_entry_is_skipped_counterexample :
  let p' := snd (syncFromObject parse (clock 8) snap2_w1_no_url pool2) in
  reachable parse pool2
  /\ In "w1" (Object_keys snap2_w1_no_url)
  /\ truthy (get (get snap2_w1_no_url "w1") "url") = false
  /\ assoc_has "w1" (workers pool2) = true
  /\ assoc_has "w1" (workers p') = true
  /\ sortedKeys p' = ["w2"; "w1"].
Proof.
  cbv zeta; repeat split; try reflexivity.
  - apply reach_sync, reach_new.
  - simpl; tauto.
Qed.

Lemma reconcile_idempotent_witness :
  let p1 := snd (syncFromObject parse (clock 7) snap_dated new_WorkerPool) in
  let r := syncFromObject parse (clock 9) snap_dated p1 in
  NoDup (Object_keys snap_dated)
  /\ no_diff (fst r)
  /\ sortedKeys (snd r) = sortedKeys p1
  /\ currentIndex (snd r) = currentIndex p1
  /\ workers (snd r) = workers p1.
Proof.
  assert (Hnd : NoDup (Object_keys snap_dated)).
  { simpl; repeat constructor; simpl; intuition discriminate. }
  split; [exact Hnd|].
  apply (reconcile_idempotent parse (clock 7) (clock 9) snap_dated
           new_WorkerPool (reach_new parse) Hnd).
  intros k raw [H|[H|[H|[]]]] Hu; injection H as <- <-;
    try (left; reflexivity); discriminate.
Defined.

(** The same snapshot twice, its timestamp the pending placeholder, the
    clock one second further: the second sync reports [w1] as updated. *)
Lemma reconcile_idempotent_counterexample :
  let p1 := snd (syncFromObject parse (clock 1000) snap_pending
                   new_WorkerPool) in
  let r := syncFromObject parse (clock 2000) snap_pending p1 in
  updated (fst r) = ["w1"]
  /\ ~ no_diff (fst r)
  /\ map (fun kw => upload_at (snd kw)) (workers p1) = [1000]
  /\ map (fun kw => upload_at (snd kw)) (workers (snd r)) = [2000].
Proof.
  cbv zeta; repeat split; try reflexivity.
  intros [_ [_ H]]; discriminate.
Qed.

Lemma round_robin_full_cycle_witness :
  let p := snd (getNextWorker pool2) in
  0 < size p
  /\ map (option_map key) (fst (next_n (Z.to_nat (size p)) p))
     = [Some "w1"; Some "w2"]
  /\ snd (next_n (Z.to_nat (size p)) p) = p.
Proof.
  intros p.
  assert (Hr : reachable parse p)
    by (apply reach_next, reach_sync, reach_new).
  assert (Hs : 0 < size p) by reflexivity.
  pose proof (proj1 (round_robin_full_cycle parse p Hr Hs)) as H.
  split; [exact Hs|]; rewrite H; split; reflexivity.
Defined.

(** Two workers, the cursor on the second: the two calls return the
    later record first, [upload_at] 100 before 50. *)
Lemma round_robin_full_cycle_counterexample :
  let p := snd (getNextWorker pool2) in
  reachable parse p
  /\ size p = 2
  /\ map (option_map upload_at) (fst (next_n 2 p)) = [Some 100; Some 50]
  /\ ~ (exists ws, fst (next_n 2 p) = map Some ws
                   /\ StronglySorted le_upload_at ws).
Proof.
  cbv zeta; repeat split; try reflexivity.
  - apply reach_next, reach_sync, reach_new.
  - intros [ws [E Hs]].
    destruct ws as [|a [|b [|c r]]]; try discriminate.
    injection E as <- <-.
    inversion Hs as [|? ? _ Hall]; subst.
    inversion Hall as [|? ? Hle _]; subst.
    unfold le_upload_at in Hle; simpl in Hle; lia.
Qed.

Lemma cursor_bounds_invariant_witness :
  reachable parse poolABC_at_B /\ cursor_in_bounds poolABC_at_B.
Proof.
  assert (Hr : reachable parse poolABC_at_B)
    by (apply reach_next, reach_sync, reach_new).
  split; [exact Hr|].
  exact (proj1 (cursor_bounds_invariant parse poolABC_at_B Hr)).
Defined.

Lemma empty_registry_no_worker_witness :
  size new_WorkerPool = 0
  /\ getNextWorker new_WorkerPool = (None, new_WorkerPool)
  /\ request_handler iso "id-1" get_health_query new_WorkerPool
     = (Respond 503
          (ErrorBody "Service Unavailable" msg_no_worker "req-1"),
        new_WorkerPool)
  /\ upgrade_handler "id-1" get_health_query new_WorkerPool
     = (SocketDestroy, new_WorkerPool).
Proof.
  pose proof (empty_registry_no_worker parse iso new_WorkerPool
                (reach_new parse) eq_refl) as [H1 [H2 H3]].
  split; [reflexivity|split; [exact H1|split]].
  - exact (H2 "id-1" get_health_query eq_refl).
  - exact (H3 "id-1" get_health_query).
Defined.

Lemma normalizeUploadAt_cases_witness :
  normalizeUploadAt parse 7 (JStr "1970-01-01T00:00:01.000Z") = 1000
  /\ normalizeUploadAt parse 7 sv_timestamp = 7
  /\ normalizeUploadAt parse 7 (JStr "tomorrow") = 7
  /\ normalizeUploadAt parse 7 (JNum NaN) = 7.
Proof.
  pose proof (normalizeUploadAt_cases parse 7) as [_ [H2 [H3 H4]]].
  split; [|split; [|split]].
  - exact (H2 "1970-01-01T00:00:01.000Z" 1000 eq_refl).
  - exact (H3 9%nat [(".sv", JStr "timestamp")] eq_refl).
  - exact (H4 (JStr "tomorrow") eq_refl).
  - exact (H4 (JNum NaN) eq_refl).
Defined.

Lemma getNextWorker_returns_a_record_witness :
  reachable parse pool2
  /\ 0 < size pool2
  /\ (exists w, arr_get (sortedKeys pool2) (currentIndex pool2) = Some (key w)
                /\ assoc_get (key w) (workers pool2) = Some w
                /\ fst (getNextWorker pool2) = Some w)
  /\ assoc_has "w1" (workers pool2) = true.
Proof.
  assert (Hr : reachable parse pool2) by (apply reach_sync, reach_new).
  assert (Hs : 0 < size pool2) by reflexivity.
  pose proof (getNextWorker_returns_a_record parse pool2 Hr) as [H1 [H2 _]].
  split; [exact Hr|split; [exact Hs|split]].
  - exact (H2 Hs).
  - apply H1; simpl; tauto.
Defined.

Lemma health_match_is_exact_witness :
  ~ In (req_url get_health_query) health_paths
  /\ reachable parse pool2
  /\ 0 < size pool2
  /\ fst (request_handler iso "id-1" get_health_query pool2)
     = ProxyWeb (JStr "http://h2")
         {| hdr_x_request_id := "req-1";
            hdr_x_proxy_worker := "w2";
            hdr_x_proxy_worker_version := JStr "unknown" |}
  /\ currentIndex (snd (request_handler iso "id-1" get_health_query pool2))
     = (currentIndex pool2 + 1) mod size pool2
  /\ In (req_url get_health) health_paths
  /\ snd (request_handler iso "id-1" get_health pool2) = pool2
  /\ (exists es,
         fst (request_handler iso "id-1" get_health pool2)
         = Respond 200 (HealthBody "ok" es 2)).
Proof.
  pose proof (health_match_is_exact parse iso "id-1" get_health_query pool2)
    as [_ [_ [Hq [Hd Hc]]]].
  pose proof (health_match_is_exact parse iso "id-1" get_health pool2)
    as [_ [Hh _]].
  assert (Hr : reachable parse pool2) by (apply reach_sync, reach_new).
  assert (Hs : 0 < size pool2) by reflexivity.
  assert (Hin : In (req_url get_health) health_paths) by (simpl; tauto).
  split; [exact Hq|split; [exact Hr|split; [exact Hs|split; [|split]]]].
  - rewrite (Hd Hq); reflexivity.
  - exact (Hc Hq Hr Hs).
  - split; [exact Hin|]; rewrite (Hh Hin); split; [reflexivity|].
    eexists; reflexivity.
Defined.

(** C8 (failing input).  One worker whose [upload_at] is the finite number
    8640000000000001 is accepted by the sync; the health request then
    calls [toISOString] on an invalid date, which throws: no 200 is
    answered.  (The pool itself is left as it was.) *)
Theorem health_throws_on_far_timestamp (iso8601 : Z -> string)
        (uuid : string) :
  reachable parse pool_far
  /\ map (fun w => (key w, url w, upload_at w)) (getAllWorkers pool_far)
     = [("w1", JStr "http://h1", 8640000000000001)]
  /\ request_handler iso8601 uuid get_health pool_far = (Throws, pool_far).
Proof.
  split; [apply reach_sync, reach_new|split; reflexivity].
Qed.

(* ================================================================== *)
(** ** Further properties: the whole interface of the pool *)

Section Api.

Variable Date_parse : string -> Num.

Lemma truthy_url_truthy_data data :
  truthy (get data "url") = true -> truthy data = true.
Proof.
  destruct (truthy data) eqn:E; [reflexivity|].
  now rewrite (get_falsy data "url" E).
Qed.

(** [updateWorker] with its default [resort]: the pool before the final
    [_resort] holds the normalized record. *)
Lemma updateWorker_valid now k data p :
  truthy (get data "url") = true ->
  updateWorker Date_parse now k data true p =
    (record_changed (assoc_get k (workers p))
       (normalized_record Date_parse now k data),
     _resort (set_workers
                (assoc_set k (normalized_record Date_parse now k data)
                   (workers p)) p)).
Proof.
  intros Hu; unfold updateWorker.
  now rewrite (truthy_url_truthy_data data Hu), Hu.
Qed.

Lemma updateWorker_invalid now k data resort p :
  truthy (get data "url") = false ->
  updateWorker Date_parse now k data resort p = (false, p).
Proof.
  intros Hu; unfold updateWorker; rewrite Hu.
  now rewrite orb_true_r.
Qed.

Lemma updateWorker_resort_Inv now k data p :
  Inv p -> Inv (snd (updateWorker Date_parse now k data true p)).
Proof.
  intros HI; destruct (truthy (get data "url")) eqn:Hu.
  - rewrite updateWorker_valid by assumption; simpl.
    apply _resort_Inv; simpl.
    + apply map_ok_set; [apply HI|reflexivity|exact Hu].
    + now apply Inv_cursor_nonneg.
  - now rewrite updateWorker_invalid.
Qed.

Lemma removeWorker_resort_Inv k p :
  Inv p -> Inv (snd (removeWorker k true p)).
Proof.
  intros HI; unfold removeWorker.
  destruct (assoc_has k (workers p)); simpl; [|exact HI].
  apply _resort_Inv; simpl.
  - apply map_ok_delete, HI.
  - now apply Inv_cursor_nonneg.
Qed.

Lemma reachable_api_Inv p : reachable_api Date_parse p -> Inv p.
Proof.
  induction 1 as [|clock obj p _ IH|p _ IH|now k data p _ IH|k p _ IH].
  - apply new_WorkerPool_Inv.
  - apply syncFromObject_Inv; [apply IH|now apply Inv_cursor_nonneg].
  - now apply getNextWorker_Inv.
  - now apply updateWorker_resort_Inv.
  - now apply removeWorker_resort_Inv.
Qed.

Lemma reachable_reachable_api p :
  reachable Date_parse p -> reachable_api Date_parse p.
Proof.
  induction 1; [apply api_new|now apply api_sync|now apply api_next].
Qed.

Lemma Inv_entry p k w :
  Inv p -> assoc_get k (workers p) = Some w ->
  key w = k /\ truthy (url w) = true.
Proof.
  intros [[_ Hall] _ _] Hg; apply assoc_get_In in Hg.
  rewrite Forall_forall in Hall; exact (Hall _ Hg).
Qed.

(** X1.  Whatever sequence of [syncFromObject], [getNextWorker],
    [updateWorker] and [removeWorker] calls the pool has seen, the cursor
    is in bounds, [sortedKeys] is the list of the keys of the map in
    ascending [upload_at] order without repetition, it has the size of
    the map, and every record is stored under its own key with a
    non-empty url. *)
Theorem api_invariant (p : WorkerPool) :
  reachable_api Date_parse p ->
  cursor_in_bounds p
  /\ sortedKeys p = map key (getAllWorkers p)
  /\ StronglySorted le_upload_at (getAllWorkers p)
  /\ NoDup (sortedKeys p)
  /\ len (sortedKeys p) = size p
  /\ (forall k, In k (sortedKeys p) <-> assoc_has k (workers p) = true)
  /\ (forall k w,
         assoc_get k (workers p) = Some w ->
         key w = k /\ truthy (url w) = true).
Proof.
  intros Hr; pose proof (reachable_api_Inv p Hr) as HI.
  split; [apply HI|split; [apply HI|split]].
  - apply sort_by_upload_at_sorted.
  - split; [now apply Inv_NoDup_sortedKeys|].
    split; [now apply Inv_len|split].
    + intros k; rewrite assoc_has_In; now apply Inv_sortedKeys_In.
    + intros k w; now apply Inv_entry.
Qed.

(** *** [updateWorker] and [removeWorker] called on their own *)

Lemma length_assoc_set {V : Type} (m : list (string * V)) k v :
  List.length (assoc_set k v m)
  = if assoc_has k m then List.length m else S (List.length m).
Proof.
  unfold assoc_has; induction m as [|[k' v'] r IH]; simpl; [reflexivity|].
  destruct (k =? k')%string; simpl; [reflexivity|].
  rewrite IH; now destruct (assoc_get k r).
Qed.

Lemma length_assoc_delete {V : Type} (m : list (string * V)) k :
  assoc_has k m = true ->
  S (List.length (assoc_delete k m)) = List.length m.
Proof.
  unfold assoc_has; induction m as [|[k' v'] r IH]; simpl; [discriminate|].
  destruct (k =? k')%string; simpl; [reflexivity|].
  intros H; now rewrite IH.
Qed.

Lemma assoc_delete_set_absent {V : Type} (m : list (string * V)) k v :
  assoc_get k m = None -> assoc_delete k (assoc_set k v m) = m.
Proof.
  induction m as [|[k' v'] r IH]; simpl.
  - now rewrite String.eqb_refl.
  - destruct (String.eqb_spec k k') as [->|Hne]; [discriminate|].
    intros H; simpl.
    destruct (String.eqb_spec k k'); [contradiction|now rewrite IH].
Qed.

Lemma pool_ext p q :
  workers p = workers q -> sortedKeys p = sortedKeys q ->
  currentIndex p = currentIndex q ->
  _firstSyncLogged p = _firstSyncLogged q -> p = q.
Proof. destruct p, q; simpl; intros; congruence. Qed.

Lemma nonempty_truthy k : k <> "" -> truthy (JStr k) = true.
Proof. intros Hk; simpl; now destruct (String.eqb_spec k ""). Qed.

(** The cursor stays on its key as long as the key is there. *)
Lemma _resort_follows q k0 :
  pointed_key q = Some k0 -> k0 <> "" ->
  In k0 (map key (getAllWorkers q)) ->
  pointed_key (_resort q) = Some k0
  /\ currentIndex (_resort q) = indexOf k0 (map key (getAllWorkers q)).
Proof.
  unfold pointed_key; intros Hk Hne Hin.
  rewrite _resort_sortedKeys, _resort_currentIndex; cbv zeta.
  rewrite Hk, (nonempty_truthy k0 Hne).
  set (keys := map key (getAllWorkers q)) in *.
  assert (len keys <> 0)
    by (rewrite len_zero; intros E; rewrite E in Hin; exact Hin).
  destruct (Z.eqb_spec (len keys) 0); [contradiction|].
  apply indexOf_In in Hin.
  destruct (Z.leb_spec 0 (indexOf k0 keys)); [|lia].
  split; [now apply indexOf_found|reflexivity].
Qed.

(** When its key is gone the cursor goes back to the start. *)
Lemma _resort_lost q k0 :
  pointed_key q = Some k0 -> k0 <> "" ->
  ~ In k0 (map key (getAllWorkers q)) ->
  currentIndex (_resort q) = 0.
Proof.
  unfold pointed_key; intros Hk Hne Hin.
  rewrite _resort_currentIndex; cbv zeta.
  rewrite Hk, (nonempty_truthy k0 Hne).
  destruct (len _ =? 0); [reflexivity|].
  destruct (Z.leb_spec 0 (indexOf k0 (map key (getAllWorkers q))))
    as [H|H]; [|reflexivity].
  exfalso; apply Hin; now apply indexOf_In.
Qed.

Lemma sorted_keys_In m k :
  Forall entry_ok m ->
  (In k (map key (sort_by_upload_at (assoc_values m)))
   <-> In k (assoc_keys m)).
Proof.
  intros Hall; split; apply Permutation_in;
    [|apply Permutation_sym]; now apply sorted_keys_perm.
Qed.

Lemma size_set_workers m p : size (set_workers m p) = len m.
Proof. reflexivity. Qed.

Lemma size_resort p : size (_resort p) = size p.
Proof. unfold size; now rewrite _resort_workers. Qed.

(** X2.  [updateWorker(key, data)] with a non-empty url registers the
    normalized record under [key] and touches no other key: the key is in
    the ordered sequence afterwards, the size grows by one exactly when
    the key is new, and for a new key the call returns [true]. *)
Theorem updateWorker_registers (now : Z) (k : string) (data : JsVal)
        (p : WorkerPool) :
  reachable_api Date_parse p ->
  truthy (get data "url") = true ->
  let r := updateWorker Date_parse now k data true p in
  assoc_get k (workers (snd r))
  = Some (normalized_record Date_parse now k data)
  /\ (forall k', k' <> k ->
         assoc_get k' (workers (snd r)) = assoc_get k' (workers p))
  /\ In k (sortedKeys (snd r))
  /\ size (snd r) = (if assoc_has k (workers p) then size p else size p + 1)
  /\ (assoc_has k (workers p) = false -> fst r = true).
Proof.
  intros Hr Hu r; pose proof (reachable_api_Inv p Hr) as HI.
  pose proof (updateWorker_resort_Inv now k data p HI) as HI1.
  unfold r in *; rewrite updateWorker_valid in * by assumption; simpl in *.
  rewrite _resort_workers; simpl.
  split; [apply assoc_get_set_same|].
  split; [intros k' Hne; now apply assoc_get_set_other|].
  split.
  - apply (Inv_sortedKeys_In _ k HI1).
    rewrite _resort_workers; simpl.
    apply In_keys_assoc_set; now left.
  - split.
    + rewrite size_resort, size_set_workers; unfold size, len.
      rewrite length_assoc_set.
      destruct (assoc_has k (workers p)); lia.
    + unfold assoc_has; destruct (assoc_get k (workers p));
        [discriminate|reflexivity].
Qed.

(** X3.  [updateWorker] is idempotent: a second call with the same key
    and data, whose timestamp does not depend on a clock that has moved,
    returns [false] (no change) and leaves the pool as it is. *)
Theorem updateWorker_twice (now1 now2 : Z) (k : string) (data : JsVal)
        (p : WorkerPool) :
  reachable_api Date_parse p ->
  truthy (get data "url") = true ->
  clock_free Date_parse (get data "upload_at") = true \/ now1 = now2 ->
  let p1 := snd (updateWorker Date_parse now1 k data true p) in
  updateWorker Date_parse now2 k data true p1 = (false, p1).
Proof.
  intros Hr Hu Hfree p1; pose proof (reachable_api_Inv p Hr) as HI.
  pose proof (updateWorker_resort_Inv now1 k data p HI) as HI1.
  fold p1 in HI1.
  assert (Hg : assoc_get k (workers p1)
               = Some (normalized_record Date_parse now2 k data)).
  { unfold p1; rewrite updateWorker_valid by assumption; simpl.
    rewrite _resort_workers; simpl; rewrite assoc_get_set_same.
    f_equal; unfold normalized_record; f_equal.
    destruct Hfree as [Hf| ->]; [|reflexivity].
    now apply normalizeUploadAt_clock_free. }
  rewrite updateWorker_valid by assumption.
  rewrite Hg, (record_changed_same _ _ _ _ Hu).
  rewrite (assoc_set_id _ _ _ Hg), set_workers_same.
  now rewrite (_resort_fixpoint p1 HI1).
Qed.

(** X4.  [removeWorker(key)] of a key that is not registered returns
    [false] and changes nothing.  For a registered key it returns [true];
    afterwards the key is neither in the map nor in the ordered sequence,
    every other key keeps its record and the size is one less. *)
Theorem removeWorker_unregisters (k : string) (p : WorkerPool) :
  reachable_api Date_parse p ->
  (assoc_has k (workers p) = false -> removeWorker k true p = (false, p))
  /\ (assoc_has k (workers p) = true ->
      let r := removeWorker k true p in
      fst r = true
      /\ assoc_get k (workers (snd r)) = None
      /\ ~ In k (sortedKeys (snd r))
      /\ (forall k', k' <> k ->
             assoc_get k' (workers (snd r)) = assoc_get k' (workers p))
      /\ size (snd r) = size p - 1).
Proof.
  intros Hr; pose proof (reachable_api_Inv p Hr) as HI.
  pose proof (removeWorker_resort_Inv k p HI) as HI1.
  unfold removeWorker in *; split; intros Hh; rewrite Hh in *;
    [reflexivity|].
  simpl in *; rewrite _resort_workers; simpl.
  assert (Hn : assoc_get k (assoc_delete k (workers p)) = None)
    by (apply assoc_get_delete_same, HI).
  split; [reflexivity|split; [exact Hn|split; [|split]]].
  - intros Hin; apply (Inv_sortedKeys_In _ k HI1) in Hin.
    rewrite _resort_workers in Hin; simpl in Hin.
    now apply assoc_get_None in Hn.
  - intros k' Hne; now apply assoc_get_delete_other.
  - rewrite size_resort, size_set_workers; unfold size, len.
    pose proof (length_assoc_delete (workers p) k Hh); lia.
Qed.

(** X5.  Registering a new key and removing it again gives back the pool
    as it was: map, ordered sequence and cursor (the cursor, provided it
    was not on an empty-string key). *)
Theorem update_then_remove_restores (now : Z) (k : string) (data : JsVal)
        (p : WorkerPool) :
  reachable_api Date_parse p ->
  assoc_has k (workers p) = false ->
  truthy (get data "url") = true ->
  pointed_key p <> Some "" ->
  snd (removeWorker k true
         (snd (updateWorker Date_parse now k data true p))) = p.
Proof.
  intros Hr Hk Hu Hpk; pose proof (reachable_api_Inv p Hr) as HI.
  rewrite updateWorker_valid by assumption; simpl.
  set (rec := normalized_record Date_parse now k data).
  set (q1 := set_workers (assoc_set k rec (workers p)) p).
  assert (Hnone : assoc_get k (workers p) = None).
  { unfold assoc_has in Hk; destruct (assoc_get k (workers p));
      [discriminate|reflexivity]. }
  assert (Hm1 : map_ok (workers q1))
    by (apply map_ok_set; [apply HI|reflexivity|exact Hu]).
  unfold removeWorker; rewrite _resort_workers.
  assert (Hh : assoc_has k (workers q1) = true).
  { unfold assoc_has; simpl; now rewrite assoc_get_set_same. }
  rewrite Hh; simpl.
  rewrite (assoc_delete_set_absent _ _ _ Hnone).
  set (q2 := set_workers (workers p) (_resort q1)).
  assert (Hkeys : map key (getAllWorkers q2) = sortedKeys p)
    by (symmetry; apply HI).
  apply pool_ext.
  - now rewrite _resort_workers.
  - now rewrite _resort_sortedKeys.
  - destruct HI as [Hm Hsk [Hpos Hzero]].
    pose proof (len_nonneg (sortedKeys p)).
    destruct (Z.eq_dec (len (sortedKeys p)) 0) as [E|E].
    + rewrite _resort_currentIndex; cbv zeta.
      rewrite Hkeys, E; simpl; symmetry; auto.
    + assert (Hb : 0 <= currentIndex p < len (sortedKeys p))
        by (apply Hpos; lia).
      destruct (arr_get_in_range _ _ Hb) as [k0 Hk0].
      assert (Hne : k0 <> "").
      { intros ->; apply Hpk; exact Hk0. }
      assert (Hin0 : In k0 (sortedKeys p)) by (now apply arr_get_Some in Hk0).
      destruct (_resort_follows q1 k0) as [Hp1 _]; [exact Hk0|exact Hne| |].
      { unfold getAllWorkers; apply sorted_keys_In; [apply Hm1|].
        simpl; apply In_keys_assoc_set; right.
        rewrite Hsk in Hin0; unfold getAllWorkers in Hin0.
        apply sorted_keys_In in Hin0; [exact Hin0|apply Hm]. }
      destruct (_resort_follows q2 k0) as [_ Hc2];
        [exact Hp1|exact Hne|now rewrite Hkeys|].
      rewrite Hc2, Hkeys.
      apply indexOf_arr_get; [|exact Hk0].
      apply (Inv_NoDup_sortedKeys p (mkInv p Hm Hsk (conj Hpos Hzero))).
  - rewrite _resort_logged; unfold q2; simpl.
    now rewrite _resort_logged.
Qed.

(** X6.  The cursor is tied to a key, not to a position: while the pool
    points at a (non-empty) key, registering or updating any worker, or
    removing any other worker, leaves it pointing at that key; removing
    the worker under the cursor sends the cursor back to position 0. *)
Theorem cursor_follows_key (k0 : string) (p : WorkerPool) :
  reachable_api Date_parse p ->
  pointed_key p = Some k0 -> k0 <> "" ->
  (forall now k data,
      pointed_key (snd (updateWorker Date_parse now k data true p))
      = Some k0)
  /\ (forall k, k <> k0 ->
         pointed_key (snd (removeWorker k true p)) = Some k0)
  /\ currentIndex (snd (removeWorker k0 true p)) = 0.
Proof.
  intros Hr Hk0 Hne; pose proof (reachable_api_Inv p Hr) as HI.
  assert (Hin0 : In k0 (assoc_keys (workers p))).
  { apply (Inv_sortedKeys_In p k0 HI).
    unfold pointed_key in Hk0; now apply arr_get_Some in Hk0. }
  split; [|split].
  - intros now k data; destruct (truthy (get data "url")) eqn:Hu.
    + rewrite updateWorker_valid by assumption; simpl.
      apply _resort_follows; [exact Hk0|exact Hne|].
      unfold getAllWorkers; apply sorted_keys_In; simpl.
      * apply map_ok_set; [apply HI|reflexivity|exact Hu].
      * apply In_keys_assoc_set; now right.
    + now rewrite updateWorker_invalid.
  - intros k Hk; unfold removeWorker.
    destruct (assoc_has k (workers p)); simpl; [|exact Hk0].
    apply _resort_follows; [exact Hk0|exact Hne|].
    unfold getAllWorkers; apply sorted_keys_In; simpl.
    + apply map_ok_delete, HI.
    + apply assoc_has_In; unfold assoc_has.
      rewrite assoc_get_delete_other by auto.
      apply assoc_has_In in Hin0; exact Hin0.
  - unfold removeWorker.
    assert (Hh : assoc_has k0 (workers p) = true) by now apply assoc_has_In.
    rewrite Hh; simpl.
    apply (_resort_lost _ k0); [exact Hk0|exact Hne|].
    unfold getAllWorkers; rewrite sorted_keys_In; simpl.
    + apply assoc_get_None, assoc_get_delete_same, HI.
    + apply map_ok_delete, HI.
Qed.

(** *** What a sync reports and what it leaves in the map *)

Lemma filter_filter {A : Type} (f g : A -> bool) (l : list A) :
  filter f (filter g l) = filter (fun x => g x && f x) l.
Proof.
  induction l as [|x r IH]; simpl; [reflexivity|].
  destruct (g x); simpl; [destruct (f x)|]; now rewrite IH.
Qed.

Lemma filter_all {A : Type} (f : A -> bool) (l : list A) :
  (forall x, In x l -> f x = true) -> filter f l = l.
Proof.
  induction l as [|x r IH]; simpl; intros H; [reflexivity|].
  rewrite (H x) by now left.
  now rewrite IH by (intros y Hy; apply H; now right).
Qed.

Lemma filter_none {A : Type} (f : A -> bool) (l : list A) :
  (forall x, In x l -> f x = false) -> filter f l = [].
Proof.
  induction l as [|x r IH]; simpl; intros H; [reflexivity|].
  rewrite (H x) by now left.
  apply IH; intros y Hy; apply H; now right.
Qed.

Lemma map_fst_filter {A B : Type} (f : A -> bool) (l : list (A * B)) :
  map fst (filter (fun e => f (fst e)) l) = filter f (map fst l).
Proof.
  induction l as [|x r IH]; simpl; [reflexivity|].
  destruct (f (fst x)); simpl; now rewrite IH.
Qed.

Lemma Set_has_cons x k ks :
  Set_has x (k :: ks) = (x =? k)%string || Set_has x ks.
Proof. reflexivity. Qed.

Lemma assoc_delete_filter {V : Type} (m : list (string * V)) k :
  NoDup (assoc_keys m) ->
  assoc_delete k m = filter (fun kw => negb (fst kw =? k)%string) m.
Proof.
  induction m as [|[k' v'] r IH]; simpl; intros Hnd; [reflexivity|].
  inversion Hnd as [|? ? Hni Hnd']; subst.
  destruct (String.eqb_spec k k') as [->|Hne].
  - rewrite String.eqb_refl; simpl.
    symmetry; apply filter_all; intros [k2 v2] Hin; simpl.
    destruct (String.eqb_spec k2 k') as [->|]; [|reflexivity].
    exfalso; apply Hni; apply (in_map fst) in Hin; exact Hin.
  - destruct (String.eqb_spec k' k) as [E|_]; [congruence|]; simpl.
    now rewrite IH.
Qed.

Lemma assoc_delete_absent {V : Type} (m : list (string * V)) k :
  assoc_has k m = false -> assoc_delete k m = m.
Proof.
  unfold assoc_has; induction m as [|[k' v'] r IH]; simpl; [reflexivity|].
  destruct (k =? k')%string; [discriminate|].
  intros H; now rewrite IH.
Qed.

Lemma NoDup_keys_filter {V : Type} (f : string * V -> bool) m :
  NoDup (assoc_keys m) -> NoDup (assoc_keys (filter f m)).
Proof.
  unfold assoc_keys; induction m as [|x r IH]; simpl; intros Hnd;
    [constructor|].
  inversion Hnd as [|? ? Hni Hnd']; subst.
  destruct (f x); simpl; [|auto].
  constructor; [|auto].
  intros Hin; apply Hni; apply in_map_iff in Hin.
  destruct Hin as [y [E Hy]]; apply filter_In in Hy.
  rewrite <- E; apply in_map; tauto.
Qed.

Lemma assoc_keys_set {V : Type} (m : list (string * V)) k v :
  assoc_keys (assoc_set k v m)
  = if assoc_has k m then assoc_keys m else assoc_keys m ++ [k].
Proof.
  unfold assoc_has, assoc_keys; induction m as [|[k' v'] r IH]; simpl;
    [reflexivity|].
  destruct (k =? k')%string; simpl; [reflexivity|].
  rewrite IH; now destruct (assoc_get k r).
Qed.

(** The first loop, in closed form: the keys it reports and the map it
    leaves. *)
Lemma remove_fold_spec nextKeys :
  forall ks acc,
    NoDup (assoc_keys (workers (snd acc))) ->
    NoDup ks ->
    (forall k, In k ks -> assoc_has k (workers (snd acc)) = true) ->
    let r := fold_left (remove_step nextKeys) ks acc in
    fst r = fst acc ++ filter (fun k => negb (Set_has k nextKeys)) ks
    /\ workers (snd r)
       = filter (fun kw => Set_has (fst kw) nextKeys
                           || negb (Set_has (fst kw) ks))
                (workers (snd acc))
    /\ same_cursor (snd acc) (snd r).
Proof.
  induction ks as [|k ks IH]; intros acc Hnd Hks Hhas; cbv zeta.
  - simpl; rewrite app_nil_r; split; [reflexivity|split].
    + symmetry; apply filter_all; intros x _; apply orb_true_r.
    + apply same_cursor_refl.
  - inversion Hks as [|? ? Hni Hks']; subst.
    cbn [fold_left filter].
    assert (Hk : assoc_has k (workers (snd acc)) = true)
      by (apply Hhas; now left).
    destruct (Set_has k nextKeys) eqn:E.
    + assert (Hstep : remove_step nextKeys acc k = acc)
        by (unfold remove_step; now rewrite E).
      rewrite Hstep.
      destruct (IH acc Hnd Hks') as [H1 [H2 H3]];
        [intros k' Hk'; apply Hhas; now right|].
      split; [exact H1|split; [|exact H3]].
      rewrite H2; apply filter_ext; intros [x v]; cbn [fst].
      rewrite Set_has_cons.
      destruct (String.eqb_spec x k) as [->|]; [|reflexivity].
      now rewrite E.
    + set (acc' := (fst acc ++ [k],
                    set_workers (assoc_delete k (workers (snd acc)))
                      (snd acc))).
      assert (Hstep : remove_step nextKeys acc k = acc')
        by (unfold remove_step, removeWorker; now rewrite E, Hk).
      rewrite Hstep.
      destruct (IH acc') as [H1 [H2 H3]].
      * simpl; now apply NoDup_assoc_delete.
      * exact Hks'.
      * intros k' Hk'; simpl; unfold assoc_has.
        rewrite assoc_get_delete_other
          by (intros ->; contradiction).
        apply Hhas; now right.
      * split; [rewrite H1; simpl; now rewrite <- app_assoc|].
        split; [|destruct H3 as [? [? ?]]; repeat split; assumption].
        rewrite H2; simpl.
        rewrite (assoc_delete_filter _ k Hnd), filter_filter.
        apply filter_ext; intros [x v]; cbn [fst].
        destruct (String.eqb_spec x k) as [->|]; simpl;
          [now rewrite E|reflexivity].
Qed.

Lemma remove_missing_spec nextKeys p :
  NoDup (assoc_keys (workers p)) ->
  fst (remove_missing nextKeys p)
  = filter (fun k => negb (Set_has k nextKeys)) (assoc_keys (workers p))
  /\ workers (snd (remove_missing nextKeys p))
     = filter (fun kw => Set_has (fst kw) nextKeys) (workers p).
Proof.
  intros Hnd; unfold remove_missing.
  destruct (remove_fold_spec nextKeys (assoc_keys (workers p)) ([], p))
    as [H1 [H2 _]]; try exact Hnd.
  - intros k Hk; now apply assoc_has_In.
  - split; [exact H1|].
    rewrite H2; simpl; apply filter_ext_in; intros [x v] Hin; simpl.
    assert (Set_has x (assoc_keys (workers p)) = true).
    { apply Set_has_In; apply (in_map fst) in Hin; exact Hin. }
    rewrite H; simpl; apply orb_false_r.
Qed.

Lemma upsert_fold_added clock before :
  forall es a u q,
    fst (fst (fold_left (upsert_step Date_parse clock before) es (a, u, q)))
    = a ++ map fst (filter (is_added before) es).
Proof.
  induction es as [|[k raw] es IH]; intros a u q; cbn [fold_left filter].
  - simpl; now rewrite app_nil_r.
  - rewrite upsert_step_spec.
    change (is_added before (k, raw))
      with (truthy (get raw "url") && negb (assoc_has k before)).
    destruct (truthy (get raw "url")); cbn [andb]; [|apply IH].
    cbv zeta; destruct (negb (assoc_has k before)).
    + rewrite IH; simpl; now rewrite <- app_assoc.
    + destruct (record_changed _ _); apply IH.
Qed.

Lemma upsert_step_workers clock before a u q k raw :
  workers (snd (upsert_step Date_parse clock before (a, u, q) (k, raw)))
  = if truthy (get raw "url")
    then assoc_set k (normalized_record Date_parse (clock k) k raw)
                   (workers q)
    else workers q.
Proof.
  rewrite upsert_step_spec.
  destruct (truthy (get raw "url")); [|reflexivity]; cbv zeta.
  destruct (negb _); [|destruct (record_changed _ _)]; reflexivity.
Qed.

Lemma upsert_fold_keys clock before :
  forall es acc,
    NoDup (map fst es) ->
    (forall e, In e es ->
               assoc_has (fst e) before
               = assoc_has (fst e) (workers (snd acc))) ->
    assoc_keys
      (workers (snd (fold_left (upsert_step Date_parse clock before) es acc)))
    = assoc_keys (workers (snd acc))
      ++ map fst (filter (is_added before) es).
Proof.
  induction es as [|[k raw] es IH]; intros acc Hnd Hb; cbn [fold_left filter].
  - now rewrite app_nil_r.
  - simpl in Hnd; inversion Hnd as [|? ? Hni Hnd']; subst.
    destruct acc as [[a u] q].
    pose proof (upsert_step_workers clock before a u q k raw) as Hw.
    rewrite IH.
    + rewrite Hw.
      change (is_added before (k, raw))
        with (truthy (get raw "url") && negb (assoc_has k before)).
      pose proof (Hb (k, raw) (or_introl eq_refl)) as Hbk.
      cbn [fst snd] in Hbk |- *; rewrite Hbk.
      destruct (truthy (get raw "url")); cbn [andb]; [|reflexivity].
      rewrite assoc_keys_set.
      destruct (assoc_has k (workers q)); cbn [negb]; [reflexivity|].
      simpl; now rewrite <- app_assoc.
    + exact Hnd'.
    + intros e He; rewrite (Hb e) by now right.
      rewrite Hw; cbn [snd].
      destruct (truthy (get raw "url")); [|reflexivity].
      unfold assoc_has; rewrite assoc_get_set_other; [reflexivity|].
      intros E; apply Hni; rewrite <- E.
      apply in_map; exact He.
Qed.


Lemma syncFromObject_fst clock obj p :
  let R := remove_missing (Object_keys obj) p in
  let U := upsert_all Date_parse clock (_snapshotComparableMap p)
             (Object_entries obj) (snd R) in
  fst (syncFromObject Date_parse clock obj p)
  = {| added := fst (fst U); removed := fst R; updated := snd (fst U) |}.
Proof.
  unfold syncFromObject.
  rewrite Object_entries_js_or, Object_keys_js_or.
  destruct (remove_missing _ p) as [rm p1]; simpl.
  destruct (upsert_all _ _ _ _ p1) as [[a u] p2]; reflexivity.
Qed.

Lemma is_added_snapshot p e :
  is_added (_snapshotComparableMap p) e
  = truthy (get (snd e) "url") && negb (assoc_has (fst e) (workers p)).
Proof. unfold is_added; now rewrite assoc_has_snapshot. Qed.


Lemma assoc_get_filter_out {V : Type} (f : string * V -> bool) m k :
  (forall v, f (k, v) = false) -> assoc_get k (filter f m) = None.
Proof.
  intros Hf; apply assoc_get_None; intros Hin.
  unfold assoc_keys in Hin; apply in_map_iff in Hin.
  destruct Hin as [[k' v] [E Hin]]; simpl in E; subst k'.
  apply filter_In in Hin; destruct Hin as [_ Hin].
  rewrite Hf in Hin; discriminate.
Qed.

Lemma sync_lookup_aux (clock : string -> Z) (obj : JsVal) (p : WorkerPool)
      (k : string) :
  Inv p ->
  NoDup (Object_keys obj) ->
  assoc_get k (workers (snd (syncFromObject Date_parse clock obj p)))
  = match assoc_get k (Object_entries obj) with
    | Some raw =>
        if truthy (get raw "url")
        then Some (normalized_record Date_parse (clock k) k raw)
        else assoc_get k (workers p)
    | None => None
    end.
Proof.
  intros HI Hnd.
  rewrite syncFromObject_workers; unfold before_resort, upsert_all.
  rewrite Object_entries_js_or, Object_keys_js_or.
  destruct (assoc_get k (Object_entries obj)) as [raw|] eqn:Hg.
  - pose proof (assoc_get_In _ _ _ Hg) as Hin.
    destruct (truthy (get raw "url")) eqn:Hu.
    + now apply upsert_all_sets.
    + rewrite upsert_all_skips.
      * simpl; apply remove_missing_keeps.
        unfold Object_keys; apply (in_map fst) in Hin; exact Hin.
      * intros raw' Hin'.
        apply (In_assoc_get _ _ _ Hnd) in Hin'.
        congruence.
  - apply assoc_get_None in Hg.
    rewrite upsert_all_skips.
    + simpl.
      destruct (remove_missing_spec (Object_keys obj) p) as [_ H2];
        [apply HI|].
      rewrite H2; apply assoc_get_filter_out; intros v; simpl.
      destruct (Set_has k (Object_keys obj)) eqn:E; [|reflexivity].
      apply Set_has_In in E; contradiction.
    + intros raw' Hin'; exfalso; apply Hg.
      apply (in_map fst) in Hin'; exact Hin'.
Qed.


Lemma filter_split_length {A : Type} (f : A -> bool) (l : list A) :
  (List.length (filter f l)
   + List.length (filter (fun x => negb (f x)) l))%nat = List.length l.
Proof.
  induction l as [|x r IH]; simpl; [reflexivity|].
  destruct (f x); simpl; lia.
Qed.

Lemma sync_registry_order_aux (clock : string -> Z) (obj : JsVal)
      (p : WorkerPool) :
  Inv p ->
  NoDup (Object_keys obj) ->
  let r := syncFromObject Date_parse clock obj p in
  assoc_keys (workers (snd r))
  = filter (fun k => Set_has k (Object_keys obj)) (assoc_keys (workers p))
    ++ added (fst r)
  /\ size (snd r) = size p - len (removed (fst r)) + len (added (fst r)).
Proof.
  intros HI Hnd r.
  destruct (remove_missing_spec (Object_keys obj) p) as [H1 H2]; [apply HI|].
  assert (Hadd : added (fst r)
                 = map fst (filter (is_added (_snapshotComparableMap p))
                              (Object_entries obj))).
  { unfold r; rewrite syncFromObject_fst; cbv zeta; simpl.
    unfold upsert_all; now rewrite upsert_fold_added. }
  assert (Hrem : removed (fst r)
                 = filter (fun k => negb (Set_has k (Object_keys obj)))
                          (assoc_keys (workers p))).
  { unfold r; rewrite syncFromObject_fst; cbv zeta; simpl; exact H1. }
  assert (Hkeys : assoc_keys (workers (snd r))
                  = filter (fun k => Set_has k (Object_keys obj))
                           (assoc_keys (workers p)) ++ added (fst r)).
  { unfold r at 1; rewrite syncFromObject_workers.
    unfold before_resort, upsert_all.
    rewrite Object_entries_js_or, Object_keys_js_or.
    rewrite upsert_fold_keys.
    - simpl; rewrite H2, Hadd; f_equal.
      unfold assoc_keys.
      apply (map_fst_filter (fun k => Set_has k (Object_keys obj))).
    - exact Hnd.
    - intros e He; simpl; rewrite assoc_has_snapshot.
      unfold assoc_has; rewrite remove_missing_keeps; [reflexivity|].
      unfold Object_keys; apply in_map; exact He. }
  split; [exact Hkeys|].
  unfold size, len.
  replace (List.length (workers (snd r)))
    with (List.length (assoc_keys (workers (snd r))))
    by (unfold assoc_keys; apply length_map).
  replace (List.length (workers p))
    with (List.length (assoc_keys (workers p)))
    by (unfold assoc_keys; apply length_map).
  rewrite Hkeys, Hrem, length_app.
  pose proof (filter_split_length
                (fun k => Set_has k (Object_keys obj))
                (assoc_keys (workers p))).
  lia.
Qed.


(** X10.  An empty state is not an error: when the feed delivers [null]
    (or [{}], or anything without entries) the registry becomes empty,
    the ordered sequence is empty, the cursor is 0, and every key that
    was registered is reported as removed. *)
Theorem empty_snapshot_clears (clock : string -> Z) (val : JsVal)
        (p : WorkerPool) :
  reachable_api Date_parse p ->
  Object_entries val = [] ->
  on_value Date_parse clock val p =
    ({| added := []; removed := assoc_keys (workers p); updated := [] |},
     {| workers := []; sortedKeys := []; currentIndex := 0;
        _firstSyncLogged := true |}).
Proof.
  intros Hr Hval; pose proof (reachable_api_Inv p Hr) as HI.
  unfold on_value; set (obj := js_or val (JObj 0 [])).
  assert (He : Object_entries obj = [])
    by (unfold obj; now rewrite Object_entries_js_or).
  assert (Hk : Object_keys obj = []) by (unfold Object_keys; now rewrite He).
  destruct (remove_missing_spec (Object_keys obj) p) as [H1 H2]; [apply HI|].
  rewrite Hk in H1, H2.
  assert (Hw : workers (snd (syncFromObject Date_parse clock obj p)) = []).
  { rewrite syncFromObject_workers; unfold before_resort, upsert_all.
    rewrite Object_entries_js_or, Object_keys_js_or, He, Hk; simpl.
    rewrite H2; apply filter_none; reflexivity. }
  assert (Hs : sortedKeys (snd (syncFromObject Date_parse clock obj p)) = []).
  { pose proof (syncFromObject_Inv Date_parse clock obj p) as HI1.
    destruct HI1 as [_ Hsk _]; [apply HI|now apply Inv_cursor_nonneg|].
    rewrite Hsk; unfold getAllWorkers; now rewrite Hw. }
  rewrite (surjective_pairing (syncFromObject Date_parse clock obj p)).
  f_equal.
  - rewrite syncFromObject_fst; cbv zeta; rewrite He, Hk; simpl.
    rewrite H1; f_equal.
    apply filter_all; reflexivity.
  - apply pool_ext; simpl; try assumption.
    + pose proof (syncFromObject_currentIndex Date_parse clock obj p) as Hc.
      cbv zeta in Hc; rewrite Hs in Hc; exact Hc.
    + apply syncFromObject_logged.
Qed.

(** *** A sync that changes fields only *)

Lemma insert_by_upload_at_alike w w' l l' :
  sorts_alike w w' -> Forall2 sorts_alike l l' ->
  Forall2 sorts_alike (insert_by_upload_at w l) (insert_by_upload_at w' l').
Proof.
  intros Hw Hl; induction Hl as [|x x' r r' Hx Hr IH]; simpl.
  - constructor; [exact Hw|constructor].
  - destruct Hw as [Hk Ht]; destruct Hx as [Hxk Hxt].
    rewrite <- Ht, <- Hxt.
    destruct (upload_at w - upload_at x <=? 0).
    + constructor; [now split|constructor; [now split|exact Hr]].
    + constructor; [now split|exact IH].
Qed.

Lemma sort_by_upload_at_alike l l' :
  Forall2 sorts_alike l l' ->
  map key (sort_by_upload_at l) = map key (sort_by_upload_at l').
Proof.
  intros Hl.
  assert (H : Forall2 sorts_alike (sort_by_upload_at l)
                      (sort_by_upload_at l')).
  { induction Hl as [|x x' r r' Hx Hr IH]; simpl; [constructor|].
    now apply insert_by_upload_at_alike. }
  induction H as [|x x' r r' [Hk _] _ IH]; simpl; [reflexivity|].
  now rewrite Hk, IH.
Qed.

Lemma assoc_values_Forall2 {V : Type} (R : V -> V -> Prop)
      (m m' : list (string * V)) :
  assoc_keys m = assoc_keys m' ->
  NoDup (assoc_keys m) ->
  (forall k v v',
      assoc_get k m = Some v -> assoc_get k m' = Some v' -> R v v') ->
  Forall2 R (assoc_values m) (assoc_values m').
Proof.
  revert m'; induction m as [|[k v] r IH]; intros [|[k' v'] r'] Hk Hnd HR;
    simpl in Hk; try discriminate; [constructor|].
  injection Hk as <- Hk.
  simpl in Hnd; inversion Hnd as [|? ? Hni Hnd']; subst.
  simpl; constructor.
  - apply (HR k); simpl; now rewrite String.eqb_refl.
  - apply IH; [exact Hk|exact Hnd'|].
    intros k2 v2 v2' H1 H2.
    assert (k2 <> k).
    { intros ->; apply Hni.
      apply assoc_get_In in H1; apply (in_map fst) in H1; exact H1. }
    apply (HR k2); simpl;
      destruct (String.eqb_spec k2 k); try contradiction; assumption.
Qed.

(** X11.  A sync that neither drops nor adds a key and leaves every
    timestamp as stored (only url, version or runner change) keeps the
    order of the map, the ordered sequence and the cursor, and reports
    nothing added or removed. *)
Theorem in_place_update_keeps_order (clock : string -> Z) (obj : JsVal)
        (p : WorkerPool) :
  reachable_api Date_parse p ->
  NoDup (Object_keys obj) ->
  (forall k, In k (assoc_keys (workers p)) -> In k (Object_keys obj)) ->
  (forall k raw,
      In (k, raw) (Object_entries obj) -> truthy (get raw "url") = true ->
      exists w, assoc_get k (workers p) = Some w
                /\ normalizeUploadAt Date_parse (clock k)
                     (get raw "upload_at") = upload_at w) ->
  let r := syncFromObject Date_parse clock obj p in
  assoc_keys (workers (snd r)) = assoc_keys (workers p)
  /\ sortedKeys (snd r) = sortedKeys p
  /\ currentIndex (snd r) = currentIndex p
  /\ added (fst r) = [] /\ removed (fst r) = [].
Proof.
  intros Hr Hnd Hkeep Hsame r; pose proof (reachable_api_Inv p Hr) as HI.
  destruct (remove_missing_spec (Object_keys obj) p) as [H1 _]; [apply HI|].
  assert (Hadd : added (fst r) = []).
  { unfold r; rewrite syncFromObject_fst; cbv zeta; simpl.
    unfold upsert_all; rewrite upsert_fold_added; simpl.
    rewrite filter_none; [reflexivity|].
    intros [k raw] Hin; rewrite is_added_snapshot; simpl.
    destruct (truthy (get raw "url")) eqn:Hu; [|reflexivity].
    destruct (Hsame k raw Hin Hu) as [w [Hg _]].
    unfold assoc_has; now rewrite Hg. }
  assert (Hrem : removed (fst r) = []).
  { unfold r; rewrite syncFromObject_fst; cbv zeta; simpl; rewrite H1.
    apply filter_none; intros k Hk.
    apply Hkeep, Set_has_In in Hk; now rewrite Hk. }
  assert (Hk : assoc_keys (workers (snd r)) = assoc_keys (workers p)).
  { destruct (sync_registry_order_aux clock obj p HI Hnd) as [Hko _].
    fold r in Hko; rewrite Hko, Hadd, app_nil_r.
    apply filter_all; intros k Hin; now apply Set_has_In, Hkeep. }
  assert (Hsk : sortedKeys (snd r) = sortedKeys p).
  { pose proof (syncFromObject_Inv Date_parse clock obj p) as HI1.
    destruct HI1 as [_ Hsk _]; [apply HI|now apply Inv_cursor_nonneg|].
    fold r in Hsk; rewrite Hsk.
    destruct HI as [[Hndp Hall] Hskp Hc]; rewrite Hskp.
    unfold getAllWorkers; symmetry; apply sort_by_upload_at_alike.
    apply assoc_values_Forall2; [now symmetry|exact Hndp|].
    intros k w w' Hg Hg'.
    unfold r in Hg'; rewrite (sync_lookup_aux clock obj p k) in Hg';
      [|exact (mkInv p (conj Hndp Hall) Hskp Hc)|exact Hnd].
    destruct (assoc_get k (Object_entries obj)) as [raw|] eqn:Hraw;
      [|discriminate].
    destruct (truthy (get raw "url")) eqn:Hu.
    - injection Hg' as <-.
      destruct (Hsame k raw (assoc_get_In _ _ _ Hraw) Hu) as [w0 [Hg0 Ht]].
      assert (w0 = w) by congruence; subst w0.
      rewrite Forall_forall in Hall.
      destruct (Hall _ (assoc_get_In _ _ _ Hg)) as [Hkw _]; simpl in Hkw.
      split; simpl; [exact Hkw|now symmetry].
    - assert (w' = w) by congruence; subst w'; split; reflexivity. }
  split; [exact Hk|split; [exact Hsk|split; [|split; assumption]]].
  pose proof (syncFromObject_currentIndex Date_parse clock obj p) as Hc.
  cbv zeta in Hc; fold r in Hc; rewrite Hsk in Hc; rewrite Hc.
  pose proof (_resort_fixpoint p HI) as Hfix.
  pose proof (_resort_currentIndex p) as Hrc; cbv zeta in Hrc.
  rewrite Hfix in Hrc.
  replace (map key (getAllWorkers p)) with (sortedKeys p) in Hrc
    by apply HI.
  now symmetry.
Qed.

(** *** Order of the listing and of the rotation *)

(** X12.  [getAllWorkers()] returns every record of the map exactly once,
    in ascending [upload_at] order, the records of equal [upload_at] in
    the order in which their keys were first registered. *)
Theorem getAllWorkers_sorted_stable (p : WorkerPool) :
  StronglySorted le_upload_at (getAllWorkers p)
  /\ Permutation (getAllWorkers p) (assoc_values (workers p))
  /\ (forall t,
         filter (fun w => upload_at w =? t) (getAllWorkers p)
         = filter (fun w => upload_at w =? t) (assoc_values (workers p))).
Proof.
  split; [apply sort_by_upload_at_sorted|split].
  - apply sort_by_upload_at_perm.
  - intros t; apply sort_by_upload_at_stable.
Qed.

Lemma next_n_nth m :
  forall p c,
    Inv p -> 0 < size p -> currentIndex p = Z.of_nat c ->
    let N := List.length (getAllWorkers p) in
    (forall i, (i < m)%nat ->
               nth_error (fst (next_n m p)) i
               = Some (nth_error (getAllWorkers p) ((c + i) mod N)))
    /\ currentIndex (snd (next_n m p)) = Z.of_nat ((c + m) mod N).
Proof.
  induction m as [|m IH]; intros p c HI Hs Hc N.
  - assert (Hl : len (sortedKeys p) = Z.of_nat N).
    { destruct HI as [_ Hk _]; rewrite Hk; unfold len, N.
      now rewrite length_map. }
    pose proof HI as [_ _ [Hpos _]].
    rewrite (Inv_len _ HI) in Hl.
    rewrite (Inv_len _ HI) in Hpos; specialize (Hpos Hs).
    split; [intros i Hi; lia|].
    simpl; rewrite Nat.add_0_r, Nat.mod_small by lia; exact Hc.
  - assert (Hl : len (sortedKeys p) = Z.of_nat N).
    { destruct HI as [_ Hk _]; rewrite Hk; unfold len, N.
      now rewrite length_map. }
    pose proof (Inv_len _ HI) as Hsz.
    assert (Hlen : 0 < len (sortedKeys p)) by lia.
    pose proof HI as [_ _ Hb].
    pose proof Hb as [Hpos _]; specialize (Hpos Hlen).
    destruct (getNextWorker_result p HI Hlen) as [w [Hw [_ [_ Hres]]]].
    rewrite Hc, arr_get_of_nat in Hw.
    pose proof (getNextWorker_snd p Hb Hlen) as Hsnd.
    pose proof (getNextWorker_Inv p HI) as HI1.
    simpl next_n.
    destruct (getNextWorker p) as [r p1] eqn:Hg; cbn [fst snd] in *.
    subst r.
    assert (Hall : getAllWorkers p1 = getAllWorkers p)
      by (rewrite Hsnd; reflexivity).
    assert (Hs1 : 0 < size p1) by (rewrite Hsnd; exact Hs).
    assert (Hc1 : currentIndex p1 = Z.of_nat ((c + 1) mod N)).
    { rewrite Hsnd; simpl.
      destruct (Z.eqb_spec (currentIndex p + 1) (len (sortedKeys p)))
        as [E|E].
      - replace (c + 1)%nat with N by lia.
        now rewrite Nat.Div0.mod_same.
      - rewrite Nat.mod_small by lia; lia. }
    destruct (IH p1 ((c + 1) mod N)%nat HI1 Hs1 Hc1) as [H1 H2].
    rewrite Hall in H1, H2; fold N in H1, H2.
    destruct (next_n m p1) as [rs p2]; cbn [fst snd] in *.
    split.
    + intros [|i] Hi; simpl.
      * rewrite Nat.add_0_r, Nat.mod_small by lia; now rewrite Hw.
      * rewrite H1 by lia.
        rewrite Nat.Div0.add_mod_idemp_l.
        now replace (c + 1 + i)%nat with (c + S i)%nat by lia.
    + rewrite H2, Nat.Div0.add_mod_idemp_l.
      now replace (c + 1 + m)%nat with (c + S m)%nat by lia.
Qed.

(** X13.  The rotation at any horizon: with a non-empty registry of [N]
    records and the cursor at [c], the call number [i] (counting from 0)
    of any run of [getNextWorker] calls returns the record at position
    [(c + i) mod N] of the ascending sequence, and after [m] calls the
    cursor is at [(c + m) mod N]. *)
Theorem rotation_closed_form (m : nat) (p : WorkerPool) :
  reachable_api Date_parse p -> 0 < size p ->
  let ws := getAllWorkers p in
  let c := Z.to_nat (currentIndex p) in
  (forall i, (i < m)%nat ->
             exists w,
               nth_error ws ((c + i) mod List.length ws) = Some w
               /\ nth_error (fst (next_n m p)) i = Some (Some w))
  /\ currentIndex (snd (next_n m p))
     = (currentIndex p + Z.of_nat m) mod size p.
Proof.
  intros Hr Hs ws c; pose proof (reachable_api_Inv p Hr) as HI.
  assert (Hc : currentIndex p = Z.of_nat c).
  { unfold c; pose proof (Inv_cursor_nonneg p HI); lia. }
  assert (Hl : size p = Z.of_nat (List.length ws)).
  { rewrite <- (Inv_len _ HI); destruct HI as [_ Hk _].
    rewrite Hk; unfold len, ws; now rewrite length_map. }
  destruct (next_n_nth m p c HI Hs Hc) as [H1 H2]; fold ws in H1, H2.
  split.
  - intros i Hi; rewrite (H1 i Hi).
    destruct (nth_error ws ((c + i) mod List.length ws)) as [w|] eqn:E.
    + exists w; split; reflexivity.
    + apply nth_error_None in E.
      pose proof (Nat.mod_upper_bound (c + i) (List.length ws)); lia.
  - rewrite H2, Nat2Z.inj_mod, Nat2Z.inj_add, <- Hc, <- Hl; reflexivity.
Qed.

(** *** The gateway on a non-empty registry *)

Variable iso8601 : Z -> string.

(** X14.  With a non-empty registry a request that is not a health check,
    and likewise an upgrade request, is handed to the worker under the
    cursor: the target is that worker's url, which is not empty, the
    metadata headers carry its key and version and the correlation
    identifier, and the cursor moves on by one, wrapping at the end.
    Both surfaces draw from the same rotation. *)
Theorem dispatch_nonempty (uuid : string) (req : Request) (p : WorkerPool) :
  reachable_api Date_parse p -> 0 < size p ->
  exists w,
    pointed_key p = Some (key w)
    /\ assoc_get (key w) (workers p) = Some w
    /\ truthy (url w) = true
    /\ let hdrs := {| hdr_x_request_id := correlation_id uuid req;
                      hdr_x_proxy_worker := key w;
                      hdr_x_proxy_worker_version := version w |} in
       let p' := set_currentIndex ((currentIndex p + 1) mod size p) p in
       (is_health_path (req_url req) = false ->
        request_handler iso8601 uuid req p = (ProxyWeb (url w) hdrs, p'))
       /\ upgrade_handler uuid req p = (ProxyWs (url w) hdrs, p').
Proof.
  intros Hr Hs; pose proof (reachable_api_Inv p Hr) as HI.
  pose proof (Inv_len _ HI) as Hlen.
  assert (Hpos : 0 < len (sortedKeys p)) by lia.
  destruct (getNextWorker_result p HI Hpos) as [w [_ [Hk [Hg Hres]]]].
  pose proof HI as [_ _ Hb].
  pose proof (getNextWorker_snd p Hb Hpos) as Hsnd.
  assert (Hmod : (if currentIndex p + 1 =? len (sortedKeys p)
                  then 0 else currentIndex p + 1)
                 = (currentIndex p + 1) mod size p).
  { destruct Hb as [Hb _]; specialize (Hb Hpos); rewrite Hlen in *.
    destruct (Z.eqb_spec (currentIndex p + 1) (size p)) as [E|E].
    - rewrite E; symmetry; apply Z.mod_same; lia.
    - symmetry; apply Z.mod_small; lia. }
  rewrite Hmod in Hsnd.
  assert (Hpair : getNextWorker p
                  = (Some w,
                     set_currentIndex ((currentIndex p + 1) mod size p) p)).
  { rewrite (surjective_pairing (getNextWorker p)); now rewrite Hres, Hsnd. }
  exists w; split; [exact Hk|split; [exact Hg|split]].
  - now apply (Inv_entry p (key w) w HI).
  - cbv zeta; split.
    + intros Hh; unfold request_handler; now rewrite Hh, Hpair.
    + unfold upgrade_handler; now rewrite Hpair.
Qed.

Lemma health_entries_in_range ws :
  Forall (fun w => Z.abs (upload_at w) <= 8640000000000000) ws ->
  health_entries iso8601 ws
  = Some (map (fun w => {| h_key := key w; h_url := url w;
                           h_version := version w;
                           h_upload_at := iso8601 (upload_at w) |}) ws).
Proof.
  induction 1 as [|w r Hw _ IH]; simpl; [reflexivity|].
  unfold Date_toISOString.
  destruct (Z.leb_spec (Z.abs (upload_at w)) 8640000000000000); [|lia].
  now rewrite IH.
Qed.

Lemma health_entries_out_of_range ws :
  Exists (fun w => 8640000000000000 < Z.abs (upload_at w)) ws ->
  health_entries iso8601 ws = None.
Proof.
  induction 1 as [w r Hw|w r _ IH]; simpl.
  - unfold Date_toISOString.
    destruct (Z.leb_spec (Z.abs (upload_at w)) 8640000000000000);
      [lia|reflexivity].
  - rewrite IH; now destruct (Date_toISOString iso8601 (upload_at w)).
Qed.

(** X15.  What a health request answers.  When every stored timestamp is
    a valid date (at most 8.64e15 ms from the epoch) the answer is 200
    with one entry per registered worker, in the order of the rotation,
    and [total_workers] is their number.  When some stored timestamp is
    beyond that range the handler throws.  In both cases the pool is
    left as it was. *)
Theorem health_outcome (uuid : string) (req : Request) (p : WorkerPool) :
  reachable_api Date_parse p ->
  In (req_url req) health_paths ->
  ((forall k w, assoc_get k (workers p) = Some w ->
                Z.abs (upload_at w) <= 8640000000000000) ->
   exists es,
     request_handler iso8601 uuid req p
     = (Respond 200 (HealthBody "ok" es (size p)), p)
     /\ map h_key es = sortedKeys p
     /\ len es = size p
     /\ Forall2 (fun e w => h_url e = url w /\ h_version e = version w
                            /\ h_upload_at e = iso8601 (upload_at w))
                es (getAllWorkers p))
  /\ ((exists k w, assoc_get k (workers p) = Some w
                   /\ 8640000000000000 < Z.abs (upload_at w)) ->
      request_handler iso8601 uuid req p = (Throws, p)).
Proof.
  intros Hr Hin; pose proof (reachable_api_Inv p Hr) as HI.
  assert (E : is_health_path (req_url req) = true).
  { unfold is_health_path, health_paths in *; simpl in Hin.
    rewrite !orb_true_iff, !String.eqb_eq; intuition auto. }
  unfold request_handler; rewrite E; split.
  - intros Hall.
    assert (Hf : Forall (fun w => Z.abs (upload_at w) <= 8640000000000000)
                        (getAllWorkers p)).
    { apply Forall_forall; intros w Hw.
      apply (Hall (key w)); now apply Inv_lookup. }
    rewrite (health_entries_in_range _ Hf).
    eexists; split; [reflexivity|split; [|split]].
    + rewrite map_map; simpl; symmetry; apply HI.
    + unfold len; rewrite length_map.
      rewrite <- (Inv_len _ HI); destruct HI as [_ Hk _].
      rewrite Hk; unfold len; now rewrite length_map.
    + clear Hf; induction (getAllWorkers p) as [|w r IH]; simpl;
        constructor; [repeat split|exact IH].
  - intros [k [w [Hg Hbig]]].
    rewrite health_entries_out_of_range; [reflexivity|].
    apply Exists_exists; exists w; split; [|exact Hbig].
    unfold getAllWorkers; apply sort_by_upload_at_In.
    apply assoc_get_In in Hg; apply (in_map snd) in Hg; exact Hg.
Qed.

(** *** The earlier revision *)

Lemma forget_resort p : forget (_resort p) = V0._resort (forget p).
Proof.
  destruct p as [m sk c lg]; unfold _resort, V0._resort, forget; simpl.
  destruct (len _ =? 0); [reflexivity|].
  destruct (arr_get sk c) as [k|];
    [destruct (k =? "")%string; simpl|];
    try reflexivity; destruct (len _ <=? c); reflexivity.
Qed.

Lemma forget_removeWorker k resort p :
  V0.removeWorker k resort (forget p)
  = forget (snd (removeWorker k resort p)).
Proof.
  unfold V0.removeWorker, removeWorker; simpl.
  destruct (assoc_has k (workers p)); [|reflexivity]; simpl.
  destruct resort; [|reflexivity].
  now rewrite forget_resort.
Qed.

Lemma forget_updateWorker now k data resort p :
  V0.updateWorker Date_parse now k data resort (forget p)
  = forget (snd (updateWorker Date_parse now k data resort p)).
Proof.
  unfold V0.updateWorker, updateWorker; simpl.
  destruct (negb (truthy data) || negb (truthy (get data "url")));
    [reflexivity|]; simpl.
  destruct resort; [|reflexivity].
  now rewrite forget_resort.
Qed.

Lemma forget_remove_fold nextKeys ks :
  forall acc,
    fold_left
      (fun q k => if negb (Set_has k nextKeys)
                  then V0.removeWorker k false q else q)
      ks (forget (snd acc))
    = forget (snd (fold_left (remove_step nextKeys) ks acc)).
Proof.
  induction ks as [|k ks IH]; intros acc; simpl; [reflexivity|].
  rewrite <- IH; f_equal.
  unfold remove_step; destruct (negb (Set_has k nextKeys)); [|reflexivity].
  rewrite forget_removeWorker.
  now destruct (removeWorker k false (snd acc)).
Qed.

Lemma forget_upsert_step clock before acc e :
  V0.updateWorker Date_parse (clock (fst e)) (fst e) (snd e) false
    (forget (snd acc))
  = forget (snd (upsert_step Date_parse clock before acc e)).
Proof.
  destruct acc as [[a u] q]; destruct e as [k raw]; cbn [fst snd].
  rewrite upsert_step_spec.
  destruct (truthy (get raw "url")) eqn:Hu.
  - unfold V0.updateWorker.
    rewrite (truthy_url_truthy_data raw Hu), Hu; cbv zeta; simpl.
    destruct (negb _); [|destruct (record_changed _ _)]; reflexivity.
  - unfold V0.updateWorker; rewrite Hu, orb_true_r.
    reflexivity.
Qed.

Lemma forget_upsert_fold clock before es :
  forall acc,
    fold_left
      (fun q (e : string * JsVal) =>
         V0.updateWorker Date_parse (clock (fst e)) (fst e) (snd e) false q)
      es (forget (snd acc))
    = forget (snd (fold_left (upsert_step Date_parse clock before) es acc)).
Proof.
  induction es as [|e es IH]; intros acc; simpl; [reflexivity|].
  rewrite <- IH; f_equal; apply forget_upsert_step.
Qed.

(** X16.  The rewrite of the listener did not change what the pool does:
    on the same pool, [syncFromObject], [updateWorker] and [removeWorker]
    of the earlier revision leave the same map, ordered sequence and
    cursor as those of the later one. *)
Theorem earlier_revision_agrees (p : WorkerPool) :
  (forall clock obj,
      V0.syncFromObject Date_parse clock obj (forget p)
      = forget (snd (syncFromObject Date_parse clock obj p)))
  /\ (forall now k data resort,
         V0.updateWorker Date_parse now k data resort (forget p)
         = forget (snd (updateWorker Date_parse now k data resort p)))
  /\ (forall k resort,
         V0.removeWorker k resort (forget p)
         = forget (snd (removeWorker k resort p))).
Proof.
  split; [|split].
  - intros clock obj; rewrite syncFromObject_resort; cbv zeta.
    change (forget
              {| workers := workers (_resort (before_resort Date_parse clock obj p));
                 sortedKeys :=
                   sortedKeys (_resort (before_resort Date_parse clock obj p));
                 currentIndex :=
                   currentIndex (_resort (before_resort Date_parse clock obj p));
                 _firstSyncLogged := true |})
      with (forget (_resort (before_resort Date_parse clock obj p))).
    rewrite forget_resort; unfold V0.syncFromObject; f_equal.
    unfold before_resort, upsert_all, remove_missing.
    change (V0.workers (forget p)) with (workers p).
    rewrite <- (forget_upsert_fold clock (_snapshotComparableMap p)).
    f_equal; simpl.
    exact (forget_remove_fold _ _ ([], p)).
  - intros; apply forget_updateWorker.
  - intros; apply forget_removeWorker.
Qed.

End Api.

(* ================================================================== *)
(** ** The further properties on the sample data *)

Lemma api_invariant_witness :
  reachable_api parse pool_with_D
  /\ cursor_in_bounds pool_with_D
  /\ sortedKeys pool_with_D = map key (getAllWorkers pool_with_D).
Proof.
  assert (Hr : reachable_api parse pool_with_D).
  { unfold pool_with_D; apply api_update.
    unfold poolABC_at_B; apply api_next, api_sync, api_new. }
  destruct (api_invariant parse pool_with_D Hr) as [H1 [H2 _]].
  exact (conj Hr (conj H1 H2)).
Defined.

Lemma updateWorker_registers_witness :
  let r := updateWorker parse 7 "D" entryD true poolABC_at_B in
  truthy (get entryD "url") = true
  /\ assoc_get "D" (workers (snd r))
     = Some (normalized_record parse 7 "D" entryD)
  /\ In "D" (sortedKeys (snd r))
  /\ fst r = true.
Proof.
  assert (Hr : reachable_api parse poolABC_at_B).
  { unfold poolABC_at_B; apply api_next, api_sync, api_new. }
  pose proof (updateWorker_registers parse 7 "D" entryD poolABC_at_B
                Hr eq_refl) as H.
  cbv zeta in H |- *; destruct H as [H1 [_ [H3 [_ H5]]]].
  exact (conj eq_refl (conj H1 (conj H3 (H5 eq_refl)))).
Defined.

Lemma updateWorker_twice_witness :
  let p1 := snd (updateWorker parse 7 "D" entryD true poolABC_at_B) in
  clock_free parse (get entryD "upload_at") = true
  /\ updateWorker parse 9 "D" entryD true p1 = (false, p1).
Proof.
  assert (Hr : reachable_api parse poolABC_at_B).
  { unfold poolABC_at_B; apply api_next, api_sync, api_new. }
  cbv zeta; split; [reflexivity|].
  exact (updateWorker_twice parse 7 9 "D" entryD poolABC_at_B Hr eq_refl
           (or_introl eq_refl)).
Defined.

Lemma removeWorker_unregisters_witness :
  assoc_has "Q" (workers poolABC_at_B) = false
  /\ removeWorker "Q" true poolABC_at_B = (false, poolABC_at_B)
  /\ assoc_has "A" (workers poolABC_at_B) = true
  /\ fst (removeWorker "A" true poolABC_at_B) = true
  /\ ~ In "A" (sortedKeys (snd (removeWorker "A" true poolABC_at_B)))
  /\ size (snd (removeWorker "A" true poolABC_at_B))
     = size poolABC_at_B - 1.
Proof.
  assert (Hr : reachable_api parse poolABC_at_B).
  { unfold poolABC_at_B; apply api_next, api_sync, api_new. }
  destruct (removeWorker_unregisters parse "Q" poolABC_at_B Hr) as [HQ _].
  destruct (removeWorker_unregisters parse "A" poolABC_at_B Hr) as [_ HA].
  specialize (HA eq_refl); cbv zeta in HA.
  destruct HA as [H1 [_ [H3 [_ H5]]]].
  exact (conj eq_refl (conj (HQ eq_refl)
           (conj eq_refl (conj H1 (conj H3 H5))))).
Defined.

Lemma update_then_remove_restores_witness :
  assoc_has "D" (workers poolABC_at_B) = false
  /\ pointed_key poolABC_at_B = Some "B"
  /\ snd (removeWorker "D" true
            (snd (updateWorker parse 7 "D" entryD true poolABC_at_B)))
     = poolABC_at_B.
Proof.
  assert (Hr : reachable_api parse poolABC_at_B).
  { unfold poolABC_at_B; apply api_next, api_sync, api_new. }
  assert (Hp : pointed_key poolABC_at_B <> Some "") by discriminate.
  exact (conj eq_refl (conj eq_refl
           (update_then_remove_restores parse 7 "D" entryD poolABC_at_B
              Hr eq_refl eq_refl Hp))).
Defined.

Lemma cursor_follows_key_witness :
  pointed_key poolABC_at_B = Some "B"
  /\ currentIndex poolABC_at_B = 1
  /\ pointed_key pool_with_D = Some "B"
  /\ pointed_key (snd (removeWorker "A" true poolABC_at_B)) = Some "B"
  /\ currentIndex (snd (removeWorker "B" true poolABC_at_B)) = 0.
Proof.
  assert (Hr : reachable_api parse poolABC_at_B).
  { unfold poolABC_at_B; apply api_next, api_sync, api_new. }
  assert (Hne : "B" <> "") by discriminate.
  destruct (cursor_follows_key parse "B" poolABC_at_B Hr eq_refl Hne)
    as [H1 [H2 H3]].
  assert (HA : "A" <> "B") by discriminate.
  exact (conj eq_refl (conj eq_refl
           (conj (H1 7 "D" entryD) (conj (H2 "A" HA) H3)))).
Defined.




Lemma empty_snapshot_clears_witness :
  on_value parse (clock 8) JNull poolABC_at_B =
    ({| added := []; removed := ["A"; "B"; "C"]; updated := [] |},
     {| workers := []; sortedKeys := []; currentIndex := 0;
        _firstSyncLogged := true |}).
Proof.
  assert (Hr : reachable_api parse poolABC_at_B).
  { unfold poolABC_at_B; apply api_next, api_sync, api_new. }
  exact (empty_snapshot_clears parse (clock 8) JNull poolABC_at_B
           Hr eq_refl).
Defined.

Lemma in_place_update_keeps_order_witness :
  let r := syncFromObject parse (clock 8) snapABC_moved poolABC_at_B in
  sortedKeys (snd r) = ["A"; "B"; "C"]
  /\ currentIndex (snd r) = 1
  /\ updated (fst r) = ["A"; "B"; "C"]
  /\ added (fst r) = [] /\ removed (fst r) = [].
Proof.
  assert (Hr : reachable_api parse poolABC_at_B).
  { unfold poolABC_at_B; apply api_next, api_sync, api_new. }
  assert (Hnd : NoDup (Object_keys snapABC_moved)).
  { simpl; repeat constructor; simpl; intuition discriminate. }
  assert (Hkeep : forall k, In k (assoc_keys (workers poolABC_at_B)) ->
                            In k (Object_keys snapABC_moved)).
  { intros k Hk; exact Hk. }
  assert (Hsame : forall k raw,
             In (k, raw) (Object_entries snapABC_moved) ->
             truthy (get raw "url") = true ->
             exists w, assoc_get k (workers poolABC_at_B) = Some w
                       /\ normalizeUploadAt parse (clock 8 k)
                            (get raw "upload_at") = upload_at w).
  { intros k raw [H|[H|[H|[]]]] _; injection H as <- <-;
      eexists; split; reflexivity. }
  pose proof (in_place_update_keeps_order parse (clock 8) snapABC_moved
                poolABC_at_B Hr Hnd Hkeep Hsame) as H.
  cbv zeta in H |- *; destruct H as [_ [H2 [H3 [H4 H5]]]].
  split; [rewrite H2; reflexivity|].
  split; [rewrite H3; reflexivity|].
  split; [reflexivity|split; assumption].
Defined.

Lemma rotation_closed_form_witness :
  0 < size pool2
  /\ map (option_map key) (fst (next_n 5 pool2))
     = [Some "w2"; Some "w1"; Some "w2"; Some "w1"; Some "w2"]
  /\ currentIndex (snd (next_n 5 pool2)) = (currentIndex pool2 + 5) mod 2.
Proof.
  assert (Hr : reachable_api parse pool2).
  { unfold pool2; apply api_sync, api_new. }
  assert (Hs : 0 < size pool2) by reflexivity.
  destruct (rotation_closed_form parse 5 pool2 Hr Hs) as [_ H2].
  exact (conj Hs (conj eq_refl H2)).
Defined.

Lemma dispatch_nonempty_witness :
  0 < size pool2
  /\ exists w,
       pointed_key pool2 = Some (key w)
       /\ truthy (url w) = true
       /\ upgrade_handler "id-1" get_health pool2
          = (ProxyWs (url w)
               {| hdr_x_request_id := "id-1";
                  hdr_x_proxy_worker := key w;
                  hdr_x_proxy_worker_version := version w |},
             set_currentIndex ((currentIndex pool2 + 1) mod size pool2)
               pool2).
Proof.
  assert (Hr : reachable_api parse pool2).
  { unfold pool2; apply api_sync, api_new. }
  assert (Hs : 0 < size pool2) by reflexivity.
  destruct (dispatch_nonempty parse iso "id-1" get_health pool2 Hr Hs)
    as [w [H1 [_ [H3 H4]]]].
  cbv zeta in H4; destruct H4 as [_ H5].
  split; [exact Hs|].
  exists w; exact (conj H1 (conj H3 H5)).
Defined.

Lemma health_outcome_witness :
  In (req_url get_health) health_paths
  /\ (exists es,
         request_handler iso "id-1" get_health pool2
         = (Respond 200 (HealthBody "ok" es (size pool2)), pool2)
         /\ map h_key es = sortedKeys pool2)
  /\ request_handler iso "id-1" get_health pool_far = (Throws, pool_far).
Proof.
  assert (Hr : reachable_api parse pool2).
  { unfold pool2; apply api_sync, api_new. }
  assert (Hf : reachable_api parse pool_far).
  { unfold pool_far; apply api_sync, api_new. }
  assert (Hin : In (req_url get_health) health_paths) by (simpl; tauto).
  destruct (health_outcome parse iso "id-1" get_health pool2 Hr Hin)
    as [Hok _].
  destruct (health_outcome parse iso "id-1" get_health pool_far Hf Hin)
    as [_ Hbad].
  split; [exact Hin|split].
  - destruct Hok as [es [H1 [H2 _]]].
    + intros k w Hg; apply assoc_get_In in Hg.
      destruct Hg as [H|[H|[]]]; injection H as <- <-; simpl; lia.
    + exists es; exact (conj H1 H2).
  - apply Hbad.
    exists "w1", (normalized_record parse 1000 "w1"
                    (entry 71 (JStr "http://h1")
                       (JNum (Finite 8640000000000001)))).
    split; [reflexivity|simpl; lia].
Defined.

(** A snapshot that is a string has its indices for keys: ["ab"] has the
    keys ["0"] and ["1"], whose entries (the characters) carry no url, so
    the workers registered under ["0"] and ["1"] are neither removed nor
    changed. *)
Example string_snapshot_keeps_index_keys :
  Object_keys (JStr "ab") = ["0"; "1"]
  /\ syncFromObject parse (clock 9) (JStr "ab") pool01
     = ({| added := []; removed := []; updated := [] |}, pool01)
  /\ removed (fst (syncFromObject parse (clock 9) (JStr "abc") pool2))
     = ["w1"; "w2"].
Proof. repeat split. Qed.
